(** * genprompt: the component-props analyser (analyzeProps.js)

    A shallow embedding of [analyzeComponentProps] and of the functions it
    drives ([isForwardRef], [resolveImportSource], [isReactComponent],
    [extractPropsType], [extractForwardRefPropsType],
    [resolveTypeRecursively]), followed by the properties established
    about them.

    Modelling decisions.
    - The values the analyser builds are JavaScript strings, arrays and
      plain objects: [JsVal].  A plain object is the list of its own
      properties in the order in which JavaScript enumerates them, written
      through [obj_set]: array-index keys first and in numeric order, no
      own property for the key [__proto__].  The prototype itself is not
      part of [JsVal]: an assignment to [__proto__] replaces it when the
      value is an object, and the one place that would read it is the
      string conversion of l.166, which is described for objects that
      still have the prototype [{}] gave them.
    - ts-morph is an external collaborator.  The syntax it exposes
      (declarations, initializers, parameters, import symbols) is read-only
      data; the type queries ([getText], [isArray], [isObject],
      [getArrayElementType], [getProperties], a property symbol's
      [getType]) are the fields of a [Facade] record over opaque type
      handles, and each of them may throw.  Type graphs may therefore be
      cyclic or infinite.
    - The code calls methods that ts-morph's own objects do not all have.
      The embedding describes any collaborator that answers the calls the
      code makes, a test double included; what ts-morph's nodes, symbols
      and type nodes answer is fixed in the section on ts-morph as it is,
      and the properties say which of the two they are about.
    - [visited] is one JavaScript [Set] shared by every recursive call of a
      resolution: it is threaded as state, and what was added to it stays
      added, also when an exception unwinds.
    - [resolveTypeRecursively] recurses on fuel; that enough fuel always
      exists, namely one unit per level of depth still allowed, is proved in
      the section on termination.
    - Of utils.js the functions that compute are embedded as well:
      [compressContent] on UTF-16 code units, [parseConfig], [processFiles]
      and [summarizeComponentProps] over parameters for the file system,
      the glob, [path] and [JSON]. *)

From Stdlib Require Import ZArith Ascii String List Lia DecimalString.
From stdpp Require Import gmap strings list.

Local Open Scope string_scope.
Local Open Scope Z_scope.

(** ** Completions: a call returns normally or throws an [Error] whose
    [message] is kept. *)

Inductive Completion (A : Type) : Type :=
| Normal (a : A)
| Throw (message : string).
Arguments Normal {A} a.
Arguments Throw {A} message.

Definition cbind {A B} (c : Completion A) (k : A -> Completion B) : Completion B :=
  match c with
  | Normal a => k a
  | Throw e => Throw e
  end.

(** ** JavaScript values *)

#[warnings="-register-all"] Inductive JsVal : Type :=
| JStr (s : string)
| JArr (elems : list JsVal)
| JObj (props : list (string * JsVal)).

Abbreviation JsObj := (list (string * JsVal)).

(** The own properties of a plain object, in the order in which JavaScript
    lists them ([Object.keys], [JSON.stringify], [for-in]): the keys that
    are array indices come first, in ascending numeric order, and the other
    keys follow in the order of their creation. *)

Definition digitValue (c : ascii) : option N :=
  let n := N_of_ascii c in
  if ((48 <=? n) && (n <=? 57))%N then Some (n - 48)%N else None.

Fixpoint decimalValue (digits : string) (acc : N) : option N :=
  match digits with
  | EmptyString => Some acc
  | String c rest =>
      match digitValue c with
      | Some d => decimalValue rest (10 * acc + d)%N
      | None => None
      end
  end.

(** A key is an array index when it is the canonical decimal numeral (no
    sign, no leading zero) of an integer below [2^32 - 1]. *)
Definition arrayIndex (key : string) : option N :=
  match key with
  | EmptyString => None
  | String "0" EmptyString => Some 0%N
  | String "0" _ => None
  | _ =>
      match decimalValue key 0 with
      | Some n => if (n <? 4294967295)%N then Some n else None
      | None => None
      end
  end.

Definition obj_has (obj : JsObj) (key : string) : bool :=
  existsb (fun p => String.eqb (fst p) key) obj.

(** Writing an existing property: the key keeps its place. *)
Fixpoint obj_replace (obj : JsObj) (key : string) (v : JsVal) : JsObj :=
  match obj with
  | [] => []
  | (k, w) :: rest =>
      if String.eqb k key then (k, v) :: rest else (k, w) :: obj_replace rest key v
  end.

(** Creating a property whose key is the array index [n]: it goes after the
    smaller indices and before everything else. *)
Fixpoint obj_insert_index (obj : JsObj) (n : N) (key : string) (v : JsVal) : JsObj :=
  match obj with
  | [] => [(key, v)]
  | (k, w) :: rest =>
      match arrayIndex k with
      | Some m =>
          if (m <? n)%N then (k, w) :: obj_insert_index rest n key v
          else (key, v) :: obj
      | None => (key, v) :: obj
      end
  end.

Definition PROTO : string := "__proto__".

(** [obj[key] = v] on an object created by [{}].  The key [__proto__] is the
    accessor inherited from [Object.prototype]: assigning through it creates
    no own property (it replaces the prototype when [v] is an object, and
    does nothing when [v] is a string). *)
Definition obj_set (obj : JsObj) (key : string) (v : JsVal) : JsObj :=
  if String.eqb key PROTO then obj
  else if obj_has obj key then obj_replace obj key v
  else
    match arrayIndex key with
    | Some n => obj_insert_index obj n key v
    | None => (obj ++ [(key, v)])%list
    end.

(** [obj[key]] *)
Fixpoint obj_get (obj : JsObj) (key : string) : option JsVal :=
  match obj with
  | [] => None
  | (k, w) :: rest => if String.eqb k key then Some w else obj_get rest key
  end.

Definition obj_keys (obj : JsObj) : list string := map fst obj.

(** String conversion as performed by a template literal [`${v}`]: a string
    is itself; an array is its elements, converted, joined by commas; a
    plain object (with the prototype that [{}] gave it) is the text
    [[object Object]] that [Object.prototype.toString] gives, unless an own
    property named [toString] shadows that method: the property holds a
    string, an array or an object, none of them callable, [valueOf] gives
    no primitive either, and the conversion throws a [TypeError]. *)
Definition NOT_PRIMITIVE : string := "Cannot convert object to primitive value".

Fixpoint toString (v : JsVal) : Completion string :=
  match v with
  | JStr s => Normal s
  | JArr elems =>
      (fix join (l : list JsVal) : Completion string :=
         match l with
         | [] => Normal EmptyString
         | [x] => toString x
         | x :: rest =>
             cbind (toString x) (fun a =>
             cbind (join rest) (fun b => Normal (a +:+ "," +:+ b)))
         end) elems
  | JObj props =>
      if obj_has props "toString" then Throw NOT_PRIMITIVE
      else Normal "[object Object]"
  end.

(** [s.endsWith(suffix)] *)
Definition endsWith (s suffix : string) : bool :=
  let n := String.length s in
  let m := String.length suffix in
  if (m <=? n)%nat then String.eqb (substring (n - m) m s) suffix else false.

(** ** The ts-morph surface *)

(** Handles of types (and of type nodes). *)
Definition Ty := nat.

(** A property symbol of an object type: [prop.getName()], and what the
    call [prop.getType()] of l.173 does, which is to return a type or to
    throw (as a call of a method that does not exist does). *)
Record PropertySymbol : Type := {
  symName : string;
  symType : Completion Ty
}.

Record Facade : Type := {
  getText : Ty -> Completion string;
  isArray : Ty -> Completion bool;
  getArrayElementType : Ty -> Completion Ty;
  isObject : Ty -> Completion bool;
  getProperties : Ty -> Completion (list PropertySymbol)
}.

(** Syntax. *)
Record ImportDeclaration : Type := {
  getModuleSpecifierValue : string
}.

(** A declaration of a symbol, seen through
    [getFirstAncestorByKind("ImportDeclaration")]. *)
Record SymbolDeclaration : Type := {
  getFirstAncestorImportDeclaration : option ImportDeclaration
}.

Record Symbol : Type := {
  getDeclarations : list SymbolDeclaration
}.

Record Expression : Type := {
  exprText : string;
  getSymbol : option Symbol
}.

Record ParameterDeclaration : Type := {
  paramType : Ty
}.

Inductive Initializer : Type :=
| CallExpression (getExpression : Expression) (getTypeArguments : list Ty)
| ArrowFunction (getParameters : list ParameterDeclaration)
| OtherExpression.

(** A declaration as the loop reads it: which of the optional guards
    [isVariableDeclaration?.()], [isFunction?.()], [isClass?.()] answers
    true, with the parts the code then asks for.  [OtherDeclaration] is a
    node on which each guard answers false or is missing: an optional call
    of a missing method is [undefined]. *)
Inductive Declaration : Type :=
| VariableDeclaration (getInitializer : option Initializer)
| FunctionDeclaration (getParameters : list ParameterDeclaration)
| ClassDeclaration
| OtherDeclaration.

(** ** The resolver's monad: shared [visited] set, exceptions, fuel *)

Definition M (A : Type) : Type :=
  gset string -> option (Completion A * gset string).

Definition ret {A} (a : A) : M A := fun visited => Some (Normal a, visited).

Definition bind {A B} (m : M A) (k : A -> M B) : M B :=
  fun visited =>
    match m visited with
    | None => None
    | Some (Normal a, visited') => k a visited'
    | Some (Throw e, visited') => Some (Throw e, visited')
    end.

(** A facade call: it does not touch [visited]. *)
Definition call {A} (c : Completion A) : M A := fun visited => Some (c, visited).

(** [try { m } catch (error) { handler(error.message) }] *)
Definition tryCatch {A} (m : M A) (handler : string -> M A) : M A :=
  fun visited =>
    match m visited with
    | None => None
    | Some (Normal a, visited') => Some (Normal a, visited')
    | Some (Throw e, visited') => handler e visited'
    end.

Definition visited_has (key : string) : M bool :=
  fun visited => Some (Normal (bool_decide (key ∈ visited)), visited).

Definition visited_add (key : string) : M unit :=
  fun visited => Some (Normal tt, {[key]} ∪ visited).

Definition out_of_fuel {A} : M A := fun _ => None.

Declare Scope resolver_scope.
Delimit Scope resolver_scope with resolver.
Notation "x <- m ;; k" := (bind m (fun x => k))
  (at level 100, m at next level, right associativity) : resolver_scope.
Notation "m ;;; k" := (bind m (fun _ => k))
  (at level 100, right associativity) : resolver_scope.

(** [list.forEach(callback)] where the callback updates an accumulator. *)
Fixpoint forEach {A St : Type} (l : list A) (callback : A -> St -> M St) (acc : St)
    : M St :=
  match l with
  | [] => ret acc
  | x :: rest => bind (callback x acc) (forEach rest callback)
  end.

Definition dquote : string := String "034"%char EmptyString.

(** [`Error resolving type "${typeName}": ${error.message}`] *)
Definition errorText (typeName message : string) : string :=
  "Error resolving type " +:+ dquote +:+ typeName +:+ dquote +:+ ": " +:+ message.

Definition MAX_DEPTH_TEXT : string := "Reached max depth".
Definition CIRCULAR_TEXT : string := "Circular reference".

(** The callback of [properties.forEach]: resolve the property's type one
    level deeper and store the outcome under the property's name. *)
Definition resolveProperty (resolveDeeper : Ty -> M JsVal)
    (prop : PropertySymbol) (result : JsObj) : M JsObj :=
  (propType <- call (symType prop) ;;
   r <- resolveDeeper propType ;;
   ret (obj_set result (symName prop) r))%resolver.

(** The body of the [try] block, given the recursive call one level deeper. *)
Definition resolveStructure (F : Facade) (resolveDeeper : Ty -> M JsVal)
    (type : Ty) (typeName : string) : M JsVal :=
  (arr <- call (isArray F type) ;;
   if arr : bool then
     elementType <- call (getArrayElementType F type) ;;
     inner <- resolveDeeper elementType ;;
     text <- call (toString inner) ;;
     ret (JArr [JStr ("Array of: " +:+ text)])
   else
     obj <- call (isObject F type) ;;
     if obj : bool then
       properties <- call (getProperties F type) ;;
       result <- forEach properties (resolveProperty resolveDeeper) [] ;;
       ret (JObj result)
     else ret (JStr typeName))%resolver.

Section Resolver.
Variable F : Facade.

Open Scope resolver_scope.

(** [resolveTypeRecursively(type, maxDepth, currentDepth, visited)] *)
Fixpoint resolveTypeRecursively (fuel : nat) (type : Ty)
    (maxDepth currentDepth : Z) {struct fuel} : M JsVal :=
  if currentDepth >? maxDepth then ret (JStr MAX_DEPTH_TEXT) else
  match fuel with
  | O => out_of_fuel
  | S fuel' =>
      typeName <- call (getText F type) ;;
      seen <- visited_has typeName ;;
      if seen : bool then ret (JStr CIRCULAR_TEXT) else
      visited_add typeName ;;;
      tryCatch
        (resolveStructure F
           (fun t => resolveTypeRecursively fuel' t maxDepth (currentDepth + 1))
           type typeName)
        (fun message => ret (JStr (errorText typeName message)))
  end.

(** Fuel that suffices at a given depth: one unit per level that the depth
    guard still lets through. *)
Definition fuel_for (maxDepth currentDepth : Z) : nat :=
  Z.to_nat (maxDepth + 1 - currentDepth).

(** [resolveTypeRecursively(type, maxDepth)]: the defaults
    [currentDepth = 0] and [visited = new Set()]. *)
Definition resolveType (type : Ty) (maxDepth : Z) : Completion JsVal :=
  match resolveTypeRecursively (fuel_for maxDepth 0) type maxDepth 0 ∅ with
  | Some (c, _) => c
  | None => Throw "fuel exhausted"
  end.
End Resolver.

(** ** Classification and extraction *)

(** [resolveImportSource(node)] *)
Definition resolveImportSource (node : Expression) : option string :=
  match getSymbol node with
  | None => None
  | Some symbol =>
      match getDeclarations symbol with
      | [] => None
      | first :: _ =>
          match getFirstAncestorImportDeclaration first with
          | Some importDeclaration => Some (getModuleSpecifierValue importDeclaration)
          | None => None
          end
      end
  end.

(** [isForwardRef(declaration)] *)
Definition isForwardRef (declaration : Declaration) : bool :=
  match declaration with
  | VariableDeclaration (Some (CallExpression expression _)) =>
      if negb (endsWith (exprText expression) "forwardRef") then false
      else
        match resolveImportSource expression with
        | Some importSource => String.eqb importSource "react"
        | None => false
        end
  | _ => false
  end.

(** [params.length > 0 && params[0].getType().isObject()] *)
Definition firstParamIsObject (F : Facade) (params : list ParameterDeclaration)
    : Completion bool :=
  match params with
  | [] => Normal false
  | p :: _ => isObject F (paramType p)
  end.

(** [isReactComponent(declaration)] *)
Definition isReactComponent (F : Facade) (declaration : Declaration) : Completion bool :=
  match declaration with
  | ClassDeclaration => Normal true
  | FunctionDeclaration params => firstParamIsObject F params
  | VariableDeclaration (Some (ArrowFunction params)) => firstParamIsObject F params
  | VariableDeclaration _ => Normal false
  | OtherDeclaration => Normal false
  end.

(** [params && params[0] ? params[0].getType() : null] *)
Definition firstParamType (params : list ParameterDeclaration) : option Ty :=
  match params with
  | [] => None
  | p :: _ => Some (paramType p)
  end.

(** [extractPropsType(declaration)].  A variable has no [getParameters] of
    its own, so its initializer is asked; an initializer that is not a
    function has no such method and the call throws a [TypeError]. *)
Definition extractPropsType (declaration : Declaration) : Completion (option Ty) :=
  match declaration with
  | FunctionDeclaration params => Normal (firstParamType params)
  | VariableDeclaration None => Normal None
  | VariableDeclaration (Some (ArrowFunction params)) => Normal (firstParamType params)
  | VariableDeclaration (Some _) =>
      Throw "declaration.getInitializer(...)?.getParameters is not a function"
  | ClassDeclaration => Normal None
  | OtherDeclaration => Normal None
  end.

(** [extractForwardRefPropsType(declaration)] *)
Definition extractForwardRefPropsType (declaration : Declaration) : option Ty :=
  match declaration with
  | VariableDeclaration (Some (CallExpression _ typeArguments)) =>
      if (2 <=? List.length typeArguments)%nat then nth_error typeArguments 1 else None
  | _ => None
  end.

(** ** The aggregator *)

(** What one pass of the loop body reads and writes: the [result] object,
    [skippedCount], and the [processed] flag of the current name. *)
Record LoopState : Type := {
  result : JsObj;
  skippedCount : nat;
  processed : bool
}.

(** [skippedCount++] *)
Definition skip (st : LoopState) : LoopState :=
  {| result := result st;
     skippedCount := S (skippedCount st);
     processed := processed st |}.

(** [let processed = false] at the head of a name's iteration. *)
Definition startName (acc : JsObj * nat) : LoopState :=
  {| result := fst acc; skippedCount := snd acc; processed := false |}.

(** What outlives a name's iteration: [result] and [skippedCount]. *)
Definition report (st : LoopState) : JsObj * nat :=
  (result st, skippedCount st).

Section Aggregator.
Variable F : Facade.
Variable maxDepth : Z.

(** [result[name] = resolveTypeRecursively(propsType, maxDepth); processed = true],
    after the log line that renders [propsType.getText()]. *)
Definition record (name : string) (propsType : Ty) (st : LoopState)
    : Completion LoopState :=
  cbind (getText F propsType) (fun _ =>
  cbind (resolveType F propsType maxDepth) (fun shape =>
  Normal {| result := obj_set (result st) name shape;
            skippedCount := skippedCount st;
            processed := true |})).

(** The body of the [try] block.  Every call that can throw comes before
    the first write of the pass, so a throwing pass leaves the state as it
    found it. *)
Definition declarationBody (name : string) (declaration : Declaration)
    (st : LoopState) : Completion LoopState :=
  cbind
    (if isForwardRef declaration then
       match extractForwardRefPropsType declaration with
       | Some propsType => record name propsType st
       | None => Normal st
       end
     else Normal st)
    (fun st1 =>
  cbind
    (if negb (processed st1) then
       cbind (isReactComponent F declaration) (fun component =>
       if component : bool then
         cbind (extractPropsType declaration) (fun propsType =>
         match propsType with
         | Some propsType => record name propsType st1
         | None => Normal st1
         end)
       else Normal st1)
     else Normal st1)
    (fun st2 =>
  Normal (if negb (processed st2) then skip st2 else st2))).

(** [try { body } catch (error) { skippedCount++ }] *)
Definition processDeclaration (name : string) (st : LoopState)
    (declaration : Declaration) : LoopState :=
  match declarationBody name declaration st with
  | Normal st' => st'
  | Throw _ => skip st
  end.

(** One iteration of [for (const [name, declarations] of components)]. *)
Definition processName (acc : JsObj * nat) (entry : string * list Declaration)
    : JsObj * nat :=
  report (fold_left (processDeclaration (fst entry)) (snd entry) (startName acc)).

(** [analyzeComponentProps(filePath, maxDepth)], given what
    [sourceFile.getExportedDeclarations()] returns for the file. *)
Definition analyzeComponentProps (components : list (string * list Declaration))
    : JsObj * nat :=
  fold_left processName components ([], 0%nat).
End Aggregator.

(** The three cases the aggregator distinguishes, in the order it tries
    them: [isForwardRef] first, [isReactComponent] otherwise. *)
Inductive Classification : Type :=
| NotAComponent
| DirectComponent
| ForwardRefComponent.

Definition classify (F : Facade) (declaration : Declaration) : Completion Classification :=
  if isForwardRef declaration then Normal ForwardRefComponent
  else cbind (isReactComponent F declaration) (fun component =>
       Normal (if component : bool then DirectComponent else NotAComponent)).


(** ** The shapes of the specification

    The sum type in which the resolver's results are described, and the
    values that stand for its cases: a leaf is its text, an array is the
    one-element array of its element, an object is a plain object, and the
    three markers are the strings the resolver returns for them. *)

#[warnings="-register-all"] Inductive ResolvedShape : Type :=
| Leaf (text : string)
| ArrayOf (element : ResolvedShape)
| ObjectOf (props : list (string * ResolvedShape))
| MaxDepth
| Circular
| Error (text : string).

Fixpoint encode (shape : ResolvedShape) : JsVal :=
  match shape with
  | Leaf text => JStr text
  | ArrayOf element => JArr [encode element]
  | ObjectOf props => JObj (map (fun p => (fst p, encode (snd p))) props)
  | MaxDepth => JStr MAX_DEPTH_TEXT
  | Circular => JStr CIRCULAR_TEXT
  | Error text => JStr text
  end.


(** ** Concrete type graphs

    A finite table of types presented as a [Facade]: handle [i] is the
    [i]-th row.  A row whose structure cannot be queried throws from
    [isArray], the first query of the [try] block. *)

Inductive TypeKind : Type :=
| KLeaf
| KArray (elementType : Ty)
| KObject (properties : list PropertySymbol)
| KUnqueryable (message : string).

Record TypeRow : Type := {
  rowText : string;
  rowKind : TypeKind
}.

Definition unknownType {A} : Completion A := Throw "unknown type".

Definition facadeOf (table : list TypeRow) : Facade := {|
  getText t :=
    match nth_error table t with
    | Some row => Normal (rowText row)
    | None => unknownType
    end;
  isArray t :=
    match nth_error table t with
    | Some {| rowKind := KArray _ |} => Normal true
    | Some {| rowKind := KUnqueryable message |} => Throw message
    | Some _ => Normal false
    | None => unknownType
    end;
  getArrayElementType t :=
    match nth_error table t with
    | Some {| rowKind := KArray elementType |} => Normal elementType
    | _ => unknownType
    end;
  isObject t :=
    match nth_error table t with
    | Some {| rowKind := KLeaf |} => Normal false
    | Some {| rowKind := KUnqueryable message |} => Throw message
    | Some _ => Normal true
    | None => unknownType
    end;
  getProperties t :=
    match nth_error table t with
    | Some {| rowKind := KObject properties |} => Normal properties
    | Some _ => Normal []
    | None => unknownType
    end
|}.

(** *** ts-morph as it is

    What the objects of ts-morph answer to the calls of the code.
    - Its nodes have none of the instance methods [isVariableDeclaration],
      [isFunction], [isClass] (the kind guards of the library are the static
      [Node.isX(node)]), so every optional call of l.70, 104, 106, 111 and
      128 is [undefined]: whatever a node declares, the loop reads it as
      [OtherDeclaration].
    - Its symbols have a name and no [getType]: the call of l.173 throws a
      [TypeError].
    - [getFirstAncestorByKind] compares an ancestor's kind, a number, with
      its argument; the string passed at l.94 equals none, and no import
      declaration is found.
    - [getTypeArguments] (l.144) gives type nodes.  A type node renders as
      text, and has no [isArray]: the call of l.165 throws a [TypeError]. *)

Definition GET_TYPE_MISSING : string := "prop.getType is not a function".
Definition IS_ARRAY_MISSING : string := "type.isArray is not a function".

Definition tsMorphNode : Declaration := OtherDeclaration.

Definition tsMorphProperty (name : string) : PropertySymbol :=
  {| symName := name; symType := Throw GET_TYPE_MISSING |}.

Definition tsMorphTypeNode (text : string) : TypeRow :=
  {| rowText := text; rowKind := KUnqueryable IS_ARRAY_MISSING |}.

(** The callee of a call: its symbol and the symbol's declaration are
    there, the import declaration above it is not found. *)
Definition tsMorphCallee (text : string) : Expression :=
  {| exprText := text;
     getSymbol :=
       Some {| getDeclarations :=
                 [ {| getFirstAncestorImportDeclaration := None |} ] |} |}.

(** What [getExportedDeclarations] gives for a file: the exported names in
    order, each with one node per declaration it has. *)
Definition exportedByTsMorph (exports : list (string * nat))
    : list (string * list Declaration) :=
  map (fun export => (fst export, repeat tsMorphNode (snd export))) exports.

(** [export function Card(props: { title: string; tags: string[] })] as the
    file's only export. *)
Definition cardFileParsed : list (string * list Declaration) :=
  exportedByTsMorph [("Card", 1%nat)].

(** [type Node = { next: Node }] *)
Definition selfReferentialParsed : Facade :=
  facadeOf [ {| rowText := "Node"; rowKind := KObject [tsMorphProperty "next"] |} ].

(** [{ a: string; b: Config; c: number }] *)
Definition threePropertiesParsed : Facade :=
  facadeOf
    [ {| rowText := "{ a: string; b: Config; c: number; }";
         rowKind := KObject [tsMorphProperty "a"; tsMorphProperty "b";
                             tsMorphProperty "c"] |} ].

(** [string] reached through two different type objects, as the types of
    two properties are. *)
Definition twoStrings : Facade :=
  facadeOf
    [ {| rowText := "string"; rowKind := KLeaf |};
      {| rowText := "string"; rowKind := KLeaf |} ].

(** The type arguments [<HTMLInputElement, InputProps>] of a call. *)
Definition wrapperTypeNodes : Facade :=
  facadeOf [ tsMorphTypeNode "HTMLInputElement"; tsMorphTypeNode "InputProps" ].

(** *** Test doubles

    Collaborators that answer every call the code makes, as the code
    expects of them: symbols with a [getType], nodes with the kind guards,
    an import lookup that finds the import.  ts-morph hands over none of
    these; they show what the code does once its calls are answered. *)

Definition property (name : string) (type : Ty) : PropertySymbol :=
  {| symName := name; symType := Normal type |}.

(** [type Node = { next: Node }] *)
Definition selfReferential : Facade :=
  facadeOf [ {| rowText := "Node"; rowKind := KObject [property "next" 0%nat] |} ].

(** [type Ping = { pong: Pong }] and [type Pong = { ping: Ping }] *)
Definition mutuallyReferential : Facade :=
  facadeOf
    [ {| rowText := "Ping"; rowKind := KObject [property "pong" 1%nat] |};
      {| rowText := "Pong"; rowKind := KObject [property "ping" 0%nat] |} ].

(** [{ a: Item; b: Item }] with [type Item = { id: string }] *)
Definition twoSiblings : Facade :=
  facadeOf
    [ {| rowText := "{ a: Item; b: Item; }";
         rowKind := KObject [property "a" 1%nat; property "b" 1%nat] |};
      {| rowText := "Item"; rowKind := KObject [property "id" 2%nat] |};
      {| rowText := "string"; rowKind := KLeaf |} ].

(** [{ title: string; tags: string[] }], the props of [Card] *)
Definition cardTypes : Facade :=
  facadeOf
    [ {| rowText := "{ title: string; tags: string[]; }";
         rowKind := KObject [property "title" 1%nat; property "tags" 2%nat] |};
      {| rowText := "string"; rowKind := KLeaf |};
      {| rowText := "string[]"; rowKind := KArray 1%nat |} ].

(** [export function Card(props: { title: string; tags: string[] })] as the
    only export of a file, on a node that answers [isFunction()] with true
    and has the parameter of that type. *)
Definition cardFile : list (string * list Declaration) :=
  [ ("Card", [FunctionDeclaration [ {| paramType := 0%nat |} ]]) ].

(** [string[]], [Item[]] and [string[][]] with [type Item = { id: string }] *)
Definition arrayTypes : Facade :=
  facadeOf
    [ {| rowText := "string[]"; rowKind := KArray 1%nat |};
      {| rowText := "string"; rowKind := KLeaf |};
      {| rowText := "Item[]"; rowKind := KArray 3%nat |};
      {| rowText := "Item"; rowKind := KObject [property "id" 1%nat] |};
      {| rowText := "string[][]"; rowKind := KArray 0%nat |} ].

(** [{ a: string; b: Config; c: number }]: in [brokenPropertyType] asking
    property [b], and it alone, for its type throws; in
    [brokenPropertyStructure] the type of [b] is obtained and named, and
    querying its structure throws. *)
Definition brokenPropertyType : Facade :=
  facadeOf
    [ {| rowText := "{ a: string; b: Config; c: number; }";
         rowKind := KObject [property "a" 1%nat;
                             {| symName := "b"; symType := Throw "boom" |};
                             property "c" 2%nat] |};
      {| rowText := "string"; rowKind := KLeaf |};
      {| rowText := "number"; rowKind := KLeaf |} ].

Definition brokenPropertyStructure : Facade :=
  facadeOf
    [ {| rowText := "{ a: string; b: Config; c: number; }";
         rowKind := KObject [property "a" 1%nat; property "b" 3%nat;
                             property "c" 2%nat] |};
      {| rowText := "string"; rowKind := KLeaf |};
      {| rowText := "number"; rowKind := KLeaf |};
      {| rowText := "Config"; rowKind := KUnqueryable "boom" |} ].

(** [import { forwardRef } from "<module>"] and a callee written [text],
    where the lookup of l.94 does find the import declaration. *)
Definition importedCallee (text module : string) : Expression :=
  {| exprText := text;
     getSymbol :=
       Some {| getDeclarations :=
                 [ {| getFirstAncestorImportDeclaration :=
                        Some {| getModuleSpecifierValue := module |} |} ] |} |}.

(** [export const Name = forwardRef<...>(...)] on a node that answers
    [isVariableDeclaration()] with true and whose initializer answers
    [isCallExpression()] with true. *)
Definition forwardRefVariable (module : string) (typeArguments : list Ty) : Declaration :=
  VariableDeclaration
    (Some (CallExpression (importedCallee "forwardRef" module) typeArguments)).

(** A file whose first export cannot be analysed (the type of its parameter
    is unknown to the facade), followed by [Card], on nodes that answer
    [isFunction()] with true. *)
Definition brokenThenCardFile : list (string * list Declaration) :=
  [ ("Broken", [FunctionDeclaration [ {| paramType := 7%nat |} ]]);
    ("Card", [FunctionDeclaration [ {| paramType := 0%nat |} ]]) ].

(** * utils.js

    The functions of utils.js that compute: [compressContent] (in its two
    versions), [parseConfig], [processFiles] and [summarizeComponentProps].
    The file system, the glob library, [path] and [JSON] are parameters. *)

(** ** Text as code units

    [compressContent] works with the character classes of regular
    expressions and of [trim], which are defined on UTF-16 code units. *)

Abbreviation CodeUnits := (list N).

Definition TAB : N := 9.
Definition LF : N := 10.
Definition CR : N := 13.
Definition SPACE : N := 32.
Definition STAR : N := 42.
Definition SLASH : N := 47.

(** Line terminators: LF, CR, LS, PS.  The dot of a regular expression
    matches every code unit but these. *)
Definition isLineTerminator (c : N) : bool :=
  ((c =? LF) || (c =? CR) || (c =? 8232) || (c =? 8233))%N.

(** [\s], which is also what [trim] strips: TAB, VT, FF, SP, NBSP, the
    other space separators, the byte order mark, and the line terminators. *)
Definition isWhiteSpace (c : N) : bool :=
  ((c =? TAB) || (c =? 11) || (c =? 12) || (c =? SPACE) || (c =? 160)
   || (c =? 5760) || ((8192 <=? c) && (c <=? 8202)) || (c =? 8239)
   || (c =? 8287) || (c =? 12288) || (c =? 65279))%N
  || isLineTerminator c.

(** [content.replace(/\s+/g, ' ')]: [inRun] tells whether the code unit
    just before was white space, whose run has already been replaced. *)
Fixpoint collapseFrom (inRun : bool) (content : CodeUnits) : CodeUnits :=
  match content with
  | [] => []
  | c :: rest =>
      if isWhiteSpace c
      then if inRun then collapseFrom true rest else SPACE :: collapseFrom true rest
      else c :: collapseFrom false rest
  end.

Definition collapseWhitespace (content : CodeUnits) : CodeUnits :=
  collapseFrom false content.

(** The lookahead of [/\/\/.*(?=[\n\r])/] after the greedy [.*]: the
    first line terminator met, if any, must be LF or CR.  (Backtracking
    does not help: every shorter match is followed by a code unit the dot
    has matched, which is no line terminator.) *)
Fixpoint lineEndsWithNewline (content : CodeUnits) : bool :=
  match content with
  | [] => false
  | c :: rest =>
      if isLineTerminator c then ((c =? LF) || (c =? CR))%N
      else lineEndsWithNewline rest
  end.

(** [content.replace(/\/\/.*(?=[\n\r])/g, '')]: outside a match, two
    slashes start one when the lookahead will succeed; inside, code units
    are dropped up to the line terminator, which is kept. *)
Fixpoint removeLineCommentsFrom (inComment : bool) (content : CodeUnits) : CodeUnits :=
  match content with
  | [] => []
  | c :: rest =>
      if inComment then
        if isLineTerminator c then c :: removeLineCommentsFrom false rest
        else removeLineCommentsFrom true rest
      else
        match rest with
        | d :: rest' =>
            if ((c =? SLASH) && (d =? SLASH))%N && lineEndsWithNewline rest'
            then removeLineCommentsFrom true rest'
            else c :: removeLineCommentsFrom false rest
        | [] => [c]
        end
  end.

Definition removeLineComments (content : CodeUnits) : CodeUnits :=
  removeLineCommentsFrom false content.

(** Whether [*/] occurs in [content]. *)
Fixpoint hasBlockEnd (content : CodeUnits) : bool :=
  match content with
  | [] => false
  | c :: rest =>
      match rest with
      | d :: _ => if ((c =? STAR) && (d =? SLASH))%N then true else hasBlockEnd rest
      | [] => false
      end
  end.

(** [content.replace(/\/\*[\s\S]*?\*\//g, '')]: outside a match, [/*]
    starts one when a [*/] follows it; inside, code units are dropped up to
    and including the first [*/]. *)
Fixpoint removeBlockCommentsFrom (inComment : bool) (content : CodeUnits) : CodeUnits :=
  match content with
  | [] => []
  | c :: rest =>
      match rest with
      | d :: rest' =>
          if inComment then
            if ((c =? STAR) && (d =? SLASH))%N
            then removeBlockCommentsFrom false rest'
            else removeBlockCommentsFrom true rest
          else
            if ((c =? SLASH) && (d =? STAR))%N && hasBlockEnd rest'
            then removeBlockCommentsFrom true rest'
            else c :: removeBlockCommentsFrom false rest
      | [] => if inComment then [] else [c]
      end
  end.

Definition removeBlockComments (content : CodeUnits) : CodeUnits :=
  removeBlockCommentsFrom false content.

(** [s.trim()] *)
Fixpoint trimStart (s : CodeUnits) : CodeUnits :=
  match s with
  | [] => []
  | c :: rest => if isWhiteSpace c then trimStart rest else s
  end.

Definition trimEnd (s : CodeUnits) : CodeUnits := rev (trimStart (rev s)).

Definition trim (s : CodeUnits) : CodeUnits := trimEnd (trimStart s).

(** [compressContent] as it is in the utils.js that accompanies
    analyzeProps.js: white space, then both kinds of comments, then [trim]. *)
Module WithComments.
Definition compressContent (content : CodeUnits) : CodeUnits :=
  let compressedContent := collapseWhitespace content in
  let compressedContent := removeLineComments compressedContent in
  let compressedContent := removeBlockComments compressedContent in
  trim compressedContent.
End WithComments.

(** [compressContent] as it is in the later utils.js, where the two comment
    passes are commented out. *)
Definition compressContent (content : CodeUnits) : CodeUnits :=
  let compressedContent := collapseWhitespace content in
  trim compressedContent.

(** The code units of an ASCII text, to write examples. *)
Definition units (text : string) : CodeUnits :=
  map N_of_ascii (list_ascii_of_string text).

(** The normal form [compressContent] produces: every white space is a
    plain space, no two are adjacent, none is first or last. *)
Fixpoint singleSpaced (s : CodeUnits) : bool :=
  match s with
  | [] => true
  | c :: rest =>
      (if isWhiteSpace c
       then (c =? SPACE)%N
            && match rest with
               | d :: _ => negb (isWhiteSpace d)
               | [] => false
               end
       else true)
      && singleSpaced rest
  end.

(** The same, except that a space may be last: what [collapseWhitespace]
    produces. *)
Fixpoint looseSpaced (s : CodeUnits) : bool :=
  match s with
  | [] => true
  | c :: rest =>
      (if isWhiteSpace c
       then (c =? SPACE)%N
            && match rest with
               | d :: _ => negb (isWhiteSpace d)
               | [] => true
               end
       else true)
      && looseSpaced rest
  end.

(** Every white space is a plain space. *)
Definition plainSpaces (s : CodeUnits) : bool :=
  forallb (fun c => negb (isWhiteSpace c) || (c =? SPACE)%N) s.

(** The code units that are not white space, in order. *)
Definition inkOf (s : CodeUnits) : CodeUnits :=
  List.filter (fun c => negb (isWhiteSpace c)) s.

Definition startsWithSpace (s : CodeUnits) : bool :=
  match s with
  | c :: _ => isWhiteSpace c
  | [] => false
  end.

Definition isNormalForm (s : CodeUnits) : bool :=
  negb (startsWithSpace s) && singleSpaced s.

(** Whether [/*] occurs. *)
Fixpoint hasBlockStart (content : CodeUnits) : bool :=
  match content with
  | [] => false
  | c :: rest =>
      match rest with
      | d :: _ => if ((c =? SLASH) && (d =? STAR))%N then true else hasBlockStart rest
      | [] => false
      end
  end.

(** ** Reading files *)

Definition newline : string := String "010"%char EmptyString.

(** What [processFiles] adds for one file. *)
Definition fileHeader (file : string) : string :=
  "--------  " +:+ file +:+ " --------" +:+ newline.

Definition fileFooter : string :=
  newline +:+ "-------- EOF --------" +:+ newline +:+ newline.

(** What [processFiles] makes of one file, and of several. *)
Definition fileBlock (file fileContent : string) : string :=
  fileHeader file +:+ fileContent +:+ fileFooter.

Definition joinAll (texts : list string) : string :=
  fold_right String.append EmptyString texts.

Section ProcessFiles.
(** [fg(filePatterns)] and [readFile(file, 'utf-8')] *)
Variable fg : list string -> Completion (list string).
Variable readFile : string -> Completion string.

(** The [for] loop of [processFiles]. *)
Fixpoint processFilesLoop (files : list string) (content : string) : Completion string :=
  match files with
  | [] => Normal content
  | file :: rest =>
      cbind (readFile file) (fun fileContent =>
      let content := content +:+ fileHeader file in
      let content := content +:+ fileContent in
      let content := content +:+ fileFooter in
      processFilesLoop rest content)
  end.

(** [processFiles(filePatterns)] *)
Definition processFiles (filePatterns : list string) : Completion string :=
  cbind (fg filePatterns) (fun files => processFilesLoop files EmptyString).
End ProcessFiles.

(** ** Finding the configuration *)

(** [`Configuration file ${configPath} not found.`] *)
Definition notFoundMessage (configPath : string) : string :=
  "Configuration file " +:+ configPath +:+ " not found.".

Section ParseConfig.
Variable Config : Type.
(** [path.dirname], [path.basename], [path.join] *)
Variable dirname : string -> string.
Variable basename : string -> string.
Variable join : string -> string -> string.
Variable readFile : string -> Completion string.
Variable JSON_parse : string -> Completion Config.

(** The [while (true)] loop of [parseConfig], from [currentDir]. *)
Fixpoint parseConfigFrom (fuel : nat) (configPath currentDir : string)
    : option (Completion Config) :=
  match fuel with
  | O => None
  | S fuel' =>
      let configFilePath := join currentDir (basename configPath) in
      match cbind (readFile configFilePath) JSON_parse with
      | Normal config => Some (Normal config)
      | Throw _ =>
          let parentDir := dirname currentDir in
          if String.eqb parentDir currentDir
          then Some (Throw (notFoundMessage configPath))
          else parseConfigFrom fuel' configPath parentDir
      end
  end.

(** [parseConfig(configPath)] *)
Definition parseConfig (fuel : nat) (configPath : string) : option (Completion Config) :=
  parseConfigFrom fuel configPath (dirname configPath).

(** The directory reached after [n] steps up from [dir]. *)
Definition ancestor (n : nat) (dir : string) : string := Nat.iter n dirname dir.

(** Whether the configuration file of a directory can be read and parsed. *)
Definition configAt (configPath dir : string) : Completion Config :=
  cbind (readFile (join dir (basename configPath))) JSON_parse.
End ParseConfig.

(** ** Reporting on files *)

(** A line on the console: [console.log] or [console.error]. *)
Inductive ConsoleLine : Type :=
| Log (text : string)
| LogError (text : string).

(** [`${skippedCount}`] *)
Definition showNat (n : nat) : string :=
  NilZero.string_of_uint (Nat.to_uint n).

Section Summarize.
(** [new Project().addSourceFileAtPath(filePath).getExportedDeclarations()],
    with the type queries of that project. *)
Variable openFile : string -> Completion (Facade * list (string * list Declaration)).
(** [JSON.stringify(result, null, 2)] *)
Variable stringify : JsObj -> string.

(** [analyzeComponentProps(filePath, maxDepth)] from the path. *)
Definition analyzeComponentPropsAt (filePath : string) (maxDepth : Z)
    : Completion (JsObj * nat) :=
  cbind (openFile filePath) (fun opened =>
  Normal (analyzeComponentProps (fst opened) maxDepth (snd opened))).

(** The lines [summarizeComponentProps] itself prints for one file, after
    the analysis of that file has completed (what [analyzeComponentProps]
    logs while it runs comes before them and is not modelled). *)
Definition summarizeFile (file : string) (maxDepth : Z) : list ConsoleLine :=
  match analyzeComponentPropsAt file maxDepth with
  | Normal (result, skippedCount) =>
      ([Log ("--------  " +:+ file +:+ " --------")]
       ++ [Log (if (0 <? List.length (obj_keys result))%nat
                then stringify result
                else "No valid props found.")]
       ++ (if (0 <? skippedCount)%nat
           then [Log ("Skipped " +:+ showNat skippedCount +:+ " exports in this file.")]
           else [])
       ++ [Log ("-------- EOF --------" +:+ newline)])%list
  | Throw message =>
      [LogError ("Error processing file " +:+ dquote +:+ file +:+ dquote +:+ ": "
                 +:+ message)]
  end.

(** [summarizeComponentProps(filePatterns, maxDepth)], given the files the
    glob returned: the console after the loop, starting from [console]. *)
Definition summarizeComponentProps (files : list string) (maxDepth : Z)
    (console : list ConsoleLine) : list ConsoleLine :=
  fold_left (fun console file => (console ++ summarizeFile file maxDepth)%list)
    files console.
End Summarize.

(** ** A small file system, to instantiate the parameters of utils.js *)

Definition toyDirname (path : string) : string :=
  if String.eqb path "/home/me/app/.genprompt.json" then "/home/me/app"
  else if String.eqb path "/home/me/app" then "/home/me"
  else if String.eqb path "/home/me" then "/home"
  else if String.eqb path "/srv/site/.genprompt.json" then "/srv/site"
  else "/".

Definition toyBasename (path : string) : string := ".genprompt.json".

Definition toyJoin (dir name : string) : string :=
  if String.eqb dir "/" then dir +:+ name else dir +:+ "/" +:+ name.

(** [/home/me/app] has no configuration file, the one of [/home/me] is not
    valid JSON, the one of [/home] is; [a.ts] and [b.ts] can be read. *)
Definition toyReadFile (path : string) : Completion string :=
  if String.eqb path "/home/me/.genprompt.json" then Normal "{ name: "
  else if String.eqb path "/home/.genprompt.json" then Normal "{}"
  else if String.eqb path "a.ts" then Normal "let a;"
  else if String.eqb path "b.ts" then Normal "let b;"
  else Throw "ENOENT: no such file or directory".

Definition toyParse (text : string) : Completion string :=
  if String.eqb text "{}" then Normal "the configuration of /home"
  else Throw "Unexpected end of JSON input".

Definition toyGlob (patterns : list string) : Completion (list string) :=
  Normal patterns.

(** Opening [Card.tsx] gives the [Card] file, [types.ts] exports two
    declarations that are no components, anything else cannot be opened. *)
Definition toyOpenFile (path : string)
    : Completion (Facade * list (string * list Declaration)) :=
  if String.eqb path "Card.tsx" then Normal (cardTypes, cardFile)
  else if String.eqb path "types.ts"
  then Normal (cardTypes, [("Props", [OtherDeclaration]); ("Size", [OtherDeclaration])])
  else Throw "File not found".

Definition toyStringify (result : JsObj) : string := "{...}".

(** ** Measures used to state further properties *)

(** Number of exported declarations of a file, over all names. *)
Definition declarationCount (components : list (string * list Declaration)) : nat :=
  List.length (concat (map snd components)).

(** Values in which an array never holds structure: a string, a
    one-element array of a string that starts with [Array of: ], or an
    object all of whose values are of this kind. *)
Fixpoint isFlat (v : JsVal) : bool :=
  match v with
  | JStr _ => true
  | JArr [JStr s] => String.prefix "Array of: " s
  | JArr _ => false
  | JObj props => forallb (fun p => isFlat (snd p)) props
  end.

(** What is kept while a file is analysed: the keys of [result] are
    distinct and are names taken from [names]; [result] and [skippedCount]
    together account for at most [budget] declarations. *)
Definition accounted (names : list string) (budget : nat) (r : JsObj) (n : nat) : Prop :=
  NoDup (obj_keys r)
  ∧ (∀ key, key ∈ obj_keys r -> key ∈ names)
  ∧ (List.length r + n <= budget)%nat.

(** ** Predicates on resolver computations and on objects *)

(** [returns m]: from every [visited] set, [m] comes back (normally or by
    throwing) without running out of fuel. *)
Definition returns {A} (m : M A) : Prop :=
  ∀ visited, is_Some (m visited).

(** [ensures m Q]: whenever [m] returns normally, its value satisfies [Q]. *)
Definition ensures {A} (m : M A) (Q : A -> Prop) : Prop :=
  ∀ visited a visited', m visited = Some (Normal a, visited') -> Q a.

(** [grows m]: [m] only ever adds to [visited]. *)
Definition grows {A} (m : M A) : Prop :=
  ∀ visited outcome visited', m visited = Some (outcome, visited') -> visited ⊆ visited'.


(** ** Sanity checks of the embedding *)

(** Objects: [{ b, 1 }] lists the key [1] first; writing [__proto__]
    creates no property; an object that has a property named [toString]
    cannot be interpolated. *)
Example obj_set_index_first :
  obj_keys (obj_set (obj_set (obj_set [] "b" (JStr "x")) "10" (JStr "y")) "9" (JStr "z"))
  = ["9"; "10"; "b"].
Proof. reflexivity. Qed.

Example obj_set_not_an_index :
  obj_keys (obj_set (obj_set (obj_set [] "b" (JStr "x")) "01" (JStr "y")) "4294967295" (JStr "z"))
  = ["b"; "01"; "4294967295"].
Proof. reflexivity. Qed.

Example obj_set_proto :
  obj_set (obj_set [] "a" (JStr "x")) "__proto__" (JStr "y") = [("a", JStr "x")].
Proof. reflexivity. Qed.

Example obj_set_again :
  obj_set (obj_set (obj_set [] "a" (JStr "x")) "b" (JStr "y")) "a" (JStr "z")
  = [("a", JStr "z"); ("b", JStr "y")].
Proof. reflexivity. Qed.

Example toString_shadowed :
  toString (JObj [("toString", JStr "() => string")]) = Throw NOT_PRIMITIVE
  ∧ toString (JObj [("id", JStr "string")]) = Normal "[object Object]"
  ∧ toString (JArr [JStr "Array of: string"]) = Normal "Array of: string".
Proof. repeat split. Qed.

(** On what ts-morph hands over. *)
Example resolve_string_array :
  resolveType arrayTypes 0%nat 2 = Normal (JArr [JStr "Array of: string"]).
Proof. reflexivity. Qed.

Example resolve_nested_array :
  resolveType arrayTypes 4%nat 2
  = Normal (JArr [JStr "Array of: Array of: string"]).
Proof. reflexivity. Qed.

Example resolve_type_node :
  resolveType wrapperTypeNodes 1%nat 2
  = Normal (JStr (errorText "InputProps" IS_ARRAY_MISSING)).
Proof. reflexivity. Qed.

Example resolve_object_parsed :
  resolveType threePropertiesParsed 0%nat 2
  = Normal (JStr (errorText "{ a: string; b: Config; c: number; }" GET_TYPE_MISSING)).
Proof. reflexivity. Qed.

(** On test doubles. *)
Example resolve_card_title_only :
  resolveType cardTypes 1%nat 2 = Normal (JStr "string").
Proof. reflexivity. Qed.

Example resolve_item_array :
  resolveType arrayTypes 2%nat 2 = Normal (JArr [JStr "Array of: [object Object]"]).
Proof. reflexivity. Qed.

Example resolve_depth_zero :
  resolveType twoSiblings 0%nat 0
  = Normal (JObj [("a", JStr MAX_DEPTH_TEXT); ("b", JStr MAX_DEPTH_TEXT)]).
Proof. reflexivity. Qed.

Example resolve_mutual_reference :
  resolveType mutuallyReferential 0%nat 5
  = Normal (JObj [("pong", JObj [("ping", JStr CIRCULAR_TEXT)])]).
Proof. reflexivity. Qed.

Example resolve_repeated_primitive :
  resolveType
    (facadeOf [ {| rowText := "{ a: string; b: string; }";
                   rowKind := KObject [property "a" 1%nat; property "b" 1%nat] |};
                {| rowText := "string"; rowKind := KLeaf |} ])
    0%nat 2
  = Normal (JObj [("a", JStr "string"); ("b", JStr CIRCULAR_TEXT)]).
Proof. reflexivity. Qed.

Example endsWith_qualified : endsWith "React.forwardRef" "forwardRef" = true.
Proof. reflexivity. Qed.

Example endsWith_short : endsWith "ref" "forwardRef" = false.
Proof. reflexivity. Qed.

(** ** Reasoning about the resolver's monad *)

Ltac unfold_monad :=
  unfold bind, ret, call, tryCatch, visited_has, visited_add, out_of_fuel in *.

Lemma returns_ret {A} (a : A) : returns (ret a).
Proof. intros v. unfold_monad. eauto. Qed.

Lemma returns_call {A} (c : Completion A) : returns (call c).
Proof. intros v. unfold_monad. eauto. Qed.

Lemma returns_bind {A B} (m : M A) (k : A -> M B) :
  returns m -> (∀ a, returns (k a)) -> returns (bind m k).
Proof.
  intros Hm Hk v. unfold bind.
  destruct (Hm v) as [[[a|e] v'] ->]; [apply Hk | eauto].
Qed.

Lemma returns_tryCatch {A} (m : M A) (handler : string -> M A) :
  returns m -> (∀ e, returns (handler e)) -> returns (tryCatch m handler).
Proof.
  intros Hm Hh v. unfold tryCatch.
  destruct (Hm v) as [[[a|e] v'] ->]; [eauto | apply Hh].
Qed.

Lemma returns_forEach {A St} (l : list A) (callback : A -> St -> M St) :
  (∀ x acc, returns (callback x acc)) -> ∀ acc, returns (forEach l callback acc).
Proof.
  intros Hc. induction l as [|x rest IH]; intros acc; simpl.
  - apply returns_ret.
  - apply returns_bind; auto.
Qed.

Lemma ensures_ret {A} (a : A) (Q : A -> Prop) : Q a -> ensures (ret a) Q.
Proof. intros HQ v b v' H. unfold_monad. congruence. Qed.

Lemma ensures_bind {A B} (m : M A) (k : A -> M B) (Q : B -> Prop) :
  (∀ a, ensures (k a) Q) -> ensures (bind m k) Q.
Proof.
  intros Hk v b v' H. unfold bind in H.
  destruct (m v) as [[[a|e] v1]|]; try discriminate.
  eapply Hk; eauto.
Qed.

Lemma ensures_bind_with {A B} (m : M A) (k : A -> M B) (P : A -> Prop) (Q : B -> Prop) :
  ensures m P -> (∀ a, P a -> ensures (k a) Q) -> ensures (bind m k) Q.
Proof.
  intros Hm Hk v b v' H. unfold bind in H.
  destruct (m v) as [[[a|e] v1]|] eqn:E; try discriminate.
  eapply Hk; eauto.
Qed.

Lemma ensures_tryCatch {A} (m : M A) (handler : string -> M A) (Q : A -> Prop) :
  ensures m Q -> (∀ e, ensures (handler e) Q) -> ensures (tryCatch m handler) Q.
Proof.
  intros Hm Hh v b v' H. unfold tryCatch in H.
  destruct (m v) as [[[a|e] v1]|] eqn:E; try discriminate.
  - inversion H; subst. eapply Hm; eauto.
  - eapply Hh; eauto.
Qed.

Lemma ensures_forEach {A St} (l : list A) (callback : A -> St -> M St)
    (Inv : St -> Prop) :
  (∀ x acc, Inv acc -> ensures (callback x acc) Inv) ->
  ∀ acc, Inv acc -> ensures (forEach l callback acc) Inv.
Proof.
  intros Hc. induction l as [|x rest IH]; intros acc Hacc; simpl.
  - by apply ensures_ret.
  - eapply ensures_bind_with; [by apply Hc | auto].
Qed.

(** [forEach] over a concatenation runs the first part, then the second. *)
Lemma forEach_app {A St} (l1 l2 : list A) (callback : A -> St -> M St) acc visited :
  forEach (l1 ++ l2) callback acc visited
  = bind (forEach l1 callback acc) (forEach l2 callback) visited.
Proof.
  revert acc visited. induction l1 as [|x rest IH]; intros acc visited; simpl.
  - reflexivity.
  - unfold bind in *. destruct (callback x acc visited) as [[[a|e] v1]|]; auto.
Qed.

Lemma forEach_nil {A St} (callback : A -> St -> M St) acc visited :
  forEach [] callback acc visited = Some (Normal acc, visited).
Proof. reflexivity. Qed.

Lemma forEach_cons {A St} x (rest : list A) (callback : A -> St -> M St) acc visited :
  forEach (x :: rest) callback acc visited
  = match callback x acc visited with
    | None => None
    | Some (Normal acc', visited') => forEach rest callback acc' visited'
    | Some (Throw e, visited') => Some (Throw e, visited')
    end.
Proof. reflexivity. Qed.

(** One pass of the property loop. *)
Lemma resolveProperty_run resolveDeeper prop result visited :
  resolveProperty resolveDeeper prop result visited
  = match symType prop with
    | Throw e => Some (Throw e, visited)
    | Normal propType =>
        match resolveDeeper propType visited with
        | None => None
        | Some (Normal r, visited') =>
            Some (Normal (obj_set result (symName prop) r), visited')
        | Some (Throw e, visited') => Some (Throw e, visited')
        end
    end.
Proof.
  unfold resolveProperty. unfold_monad.
  destruct (symType prop) as [propType|e]; [|reflexivity].
  destruct (resolveDeeper propType visited) as [[[r|e] v1]|]; reflexivity.
Qed.

(** ** Objects *)

Lemma obj_has_keys obj key : obj_has obj key = true <-> key ∈ obj_keys obj.
Proof.
  unfold obj_has, obj_keys. induction obj as [|[k w] rest IH]; simpl.
  - split; [discriminate | intros H; by apply elem_of_nil in H].
  - rewrite orb_true_iff, IH, elem_of_cons, String.eqb_eq. split; intros [H|H]; auto.
Qed.

Lemma obj_has_false obj key : obj_has obj key = false <-> key ∉ obj_keys obj.
Proof.
  rewrite <- obj_has_keys. destruct (obj_has obj key); split; congruence.
Qed.

Lemma obj_replace_keys obj key v : obj_keys (obj_replace obj key v) = obj_keys obj.
Proof.
  unfold obj_keys. induction obj as [|[k w] rest IH]; simpl; [reflexivity|].
  destruct (String.eqb k key) eqn:E; simpl; [reflexivity | by rewrite IH].
Qed.

Lemma obj_replace_Forall (P : string * JsVal -> Prop) obj key v :
  Forall P obj -> (∀ k, k ∈ obj_keys obj -> k = key -> P (k, v)) ->
  Forall P (obj_replace obj key v).
Proof.
  unfold obj_keys. induction obj as [|[k w] rest IH]; simpl; intros Hobj Hv.
  - constructor.
  - inversion Hobj; subst. destruct (String.eqb k key) eqn:E; constructor; auto.
    + apply Hv; [by left | by apply String.eqb_eq].
    + apply IH; [assumption|]. intros k' Hk'. apply Hv. by right.
Qed.

Lemma obj_insert_index_perm obj n key v :
  obj_insert_index obj n key v ≡ₚ ((key, v) :: obj).
Proof.
  induction obj as [|[k w] rest IH]; simpl; [reflexivity|].
  destruct (arrayIndex k) as [m|]; [|reflexivity].
  destruct (m <? n)%N; [|reflexivity].
  rewrite IH. apply Permutation_swap.
Qed.

(** The three things an assignment can do. *)
Lemma obj_set_cases obj key v :
  (key = PROTO ∧ obj_set obj key v = obj)
  ∨ (key <> PROTO ∧ key ∈ obj_keys obj ∧ obj_set obj key v = obj_replace obj key v)
  ∨ (key <> PROTO ∧ (key ∉ obj_keys obj) ∧ obj_set obj key v ≡ₚ ((key, v) :: obj)).
Proof.
  unfold obj_set. destruct (String.eqb key PROTO) eqn:Eproto.
  - left. by apply String.eqb_eq in Eproto.
  - apply String.eqb_neq in Eproto. right.
    destruct (obj_has obj key) eqn:Ehas.
    + left. by apply obj_has_keys in Ehas.
    + right. apply obj_has_false in Ehas. split; [done|]. split; [done|].
      destruct (arrayIndex key) as [n|].
      * apply obj_insert_index_perm.
      * symmetry. apply Permutation_cons_append.
Qed.

Lemma obj_set_Forall (P : string * JsVal -> Prop) obj key v :
  Forall P obj -> P (key, v) -> Forall P (obj_set obj key v).
Proof.
  intros Hobj Hv.
  destruct (obj_set_cases obj key v) as [[_ ->] | [(_ & _ & ->) | (_ & _ & Hperm)]].
  - exact Hobj.
  - apply obj_replace_Forall; [exact Hobj|]. by intros k _ ->.
  - rewrite Hperm. by constructor.
Qed.



(** The keys after an assignment: the earlier keys, and the assigned key
    unless it is [__proto__]. *)
Lemma obj_set_keys obj key v k :
  k ∈ obj_keys (obj_set obj key v) <-> k ∈ obj_keys obj ∨ (k = key ∧ key <> PROTO).
Proof.
  destruct (obj_set_cases obj key v) as [[Hp ->] | [(Hp & Hin & ->) | (Hp & Hin & Hperm)]].
  - split; [by left | intros [H|[_ H]]; [exact H | contradiction]].
  - rewrite obj_replace_keys. split; [by left | intros [H|[-> _]]; assumption].
  - unfold obj_keys. rewrite Hperm. simpl. rewrite elem_of_cons.
    split.
    + intros [->|H]; [right; by split | by left].
    + intros [H|[-> _]]; [by right | by left].
Qed.

Lemma obj_set_NoDup obj key v :
  NoDup (obj_keys obj) -> NoDup (obj_keys (obj_set obj key v)).
Proof.
  intros Hnodup.
  destruct (obj_set_cases obj key v) as [[Hp ->] | [(Hp & Hin & ->) | (Hp & Hin & Hperm)]].
  - exact Hnodup.
  - by rewrite obj_replace_keys.
  - unfold obj_keys. rewrite Hperm. simpl. by constructor.
Qed.

(** An assignment creates at most one property, and exactly one when the
    key is new and is not [__proto__]. *)
Lemma obj_set_length obj key v :
  List.length (obj_set obj key v)
  = if bool_decide (key = PROTO ∨ key ∈ obj_keys obj) then List.length obj
    else S (List.length obj).
Proof.
  assert (Hlen : ∀ o : JsObj, List.length o = List.length (obj_keys o)).
  { intros o. unfold obj_keys. by rewrite length_map. }
  destruct (obj_set_cases obj key v) as [[Hp ->] | [(Hp & Hin & ->) | (Hp & Hin & Hperm)]].
  - rewrite bool_decide_eq_true_2; [reflexivity | by left].
  - rewrite bool_decide_eq_true_2; [|by right].
    by rewrite !Hlen, obj_replace_keys.
  - rewrite bool_decide_eq_false_2; [|intros [H|H]; contradiction].
    by rewrite Hperm.
Qed.

Lemma obj_get_None obj key : key ∉ obj_keys obj -> obj_get obj key = None.
Proof.
  unfold obj_keys. induction obj as [|[k w] rest IH]; simpl; intros Hfresh; [reflexivity|].
  destruct (String.eqb k key) eqn:E.
  - apply String.eqb_eq in E. subst k. exfalso. apply Hfresh. by left.
  - apply IH. intros Hin. apply Hfresh. by right.
Qed.







(** ** The resolver, case by case *)

Section ResolverCases.
Variable F : Facade.
Variables (maxDepth currentDepth : Z).

Lemma depth_guard_false : currentDepth <= maxDepth -> (currentDepth >? maxDepth) = false.
Proof. intros H. rewrite Z.gtb_ltb. by apply Z.ltb_ge. Qed.

(** Past the guards: the key joins [visited] and the [try] block runs. *)
Lemma resolve_enter fuel type typeName visited :
  currentDepth <= maxDepth ->
  getText F type = Normal typeName ->
  typeName ∉ visited ->
  resolveTypeRecursively F (S fuel) type maxDepth currentDepth visited
  = tryCatch
      (resolveStructure F
         (fun t => resolveTypeRecursively F fuel t maxDepth (currentDepth + 1))
         type typeName)
      (fun message => ret (JStr (errorText typeName message)))
      ({[typeName]} ∪ visited).
Proof.
  intros Hdepth Htext Hfresh. simpl.
  rewrite depth_guard_false by assumption.
  unfold bind at 1. unfold call at 1. rewrite Htext.
  unfold bind at 1. unfold visited_has at 1.
  rewrite bool_decide_eq_false_2 by assumption.
  reflexivity.
Qed.

Lemma resolve_getText_throws fuel type message visited :
  currentDepth <= maxDepth ->
  getText F type = Throw message ->
  resolveTypeRecursively F (S fuel) type maxDepth currentDepth visited
  = Some (Throw message, visited).
Proof.
  intros Hdepth Htext. simpl.
  rewrite depth_guard_false by assumption.
  unfold bind at 1. unfold call at 1. by rewrite Htext.
Qed.

Lemma resolve_circular fuel type typeName visited :
  currentDepth <= maxDepth ->
  getText F type = Normal typeName ->
  typeName ∈ visited ->
  resolveTypeRecursively F (S fuel) type maxDepth currentDepth visited
  = Some (Normal (JStr CIRCULAR_TEXT), visited).
Proof.
  intros Hdepth Htext Hseen. simpl.
  rewrite depth_guard_false by assumption.
  unfold bind at 1. unfold call at 1. rewrite Htext.
  unfold bind at 1. unfold visited_has at 1.
  by rewrite bool_decide_eq_true_2 by assumption.
Qed.

Lemma resolve_leaf fuel type typeName visited :
  currentDepth <= maxDepth ->
  getText F type = Normal typeName ->
  typeName ∉ visited ->
  isArray F type = Normal false ->
  isObject F type = Normal false ->
  resolveTypeRecursively F (S fuel) type maxDepth currentDepth visited
  = Some (Normal (JStr typeName), {[typeName]} ∪ visited).
Proof.
  intros Hdepth Htext Hfresh Harr Hobj.
  rewrite (resolve_enter _ _ typeName) by assumption.
  unfold tryCatch, resolveStructure. unfold_monad. by rewrite Harr, Hobj.
Qed.

(** A throw from the first structural query is caught by the type's own
    [try] block. *)
Lemma resolve_structure_throws fuel type typeName message visited :
  currentDepth <= maxDepth ->
  getText F type = Normal typeName ->
  typeName ∉ visited ->
  isArray F type = Throw message ->
  resolveTypeRecursively F (S fuel) type maxDepth currentDepth visited
  = Some (Normal (JStr (errorText typeName message)), {[typeName]} ∪ visited).
Proof.
  intros Hdepth Htext Hfresh Harr.
  rewrite (resolve_enter _ _ typeName) by assumption.
  unfold tryCatch, resolveStructure. unfold_monad. by rewrite Harr.
Qed.

(** The array branch: the element's outcome is interpolated into a string. *)
Lemma resolve_array fuel type typeName elementType inner visited visited' :
  currentDepth <= maxDepth ->
  getText F type = Normal typeName ->
  typeName ∉ visited ->
  isArray F type = Normal true ->
  getArrayElementType F type = Normal elementType ->
  resolveTypeRecursively F fuel elementType maxDepth (currentDepth + 1)
    ({[typeName]} ∪ visited) = Some (Normal inner, visited') ->
  resolveTypeRecursively F (S fuel) type maxDepth currentDepth visited
  = Some (match toString inner with
          | Normal text => Normal (JArr [JStr ("Array of: " +:+ text)])
          | Throw message => Normal (JStr (errorText typeName message))
          end, visited').
Proof.
  intros Hdepth Htext Hfresh Harr Helem Hinner.
  rewrite (resolve_enter _ _ typeName) by assumption.
  unfold tryCatch, resolveStructure. unfold_monad. rewrite Harr, Helem, Hinner.
  by destruct (toString inner).
Qed.

(** The object branch: the loop over the properties decides the outcome;
    an exception that escapes the loop is caught by this type's handler. *)
Lemma resolve_object fuel type typeName properties visited :
  currentDepth <= maxDepth ->
  getText F type = Normal typeName ->
  typeName ∉ visited ->
  isArray F type = Normal false ->
  isObject F type = Normal true ->
  getProperties F type = Normal properties ->
  resolveTypeRecursively F (S fuel) type maxDepth currentDepth visited
  = match forEach properties
            (resolveProperty
               (fun t => resolveTypeRecursively F fuel t maxDepth (currentDepth + 1)))
            [] ({[typeName]} ∪ visited) with
    | None => None
    | Some (Normal result, visited') => Some (Normal (JObj result), visited')
    | Some (Throw message, visited') =>
        Some (Normal (JStr (errorText typeName message)), visited')
    end.
Proof.
  intros Hdepth Htext Hfresh Harr Hobj Hprops.
  rewrite (resolve_enter _ _ typeName) by assumption.
  unfold tryCatch, resolveStructure. unfold_monad. rewrite Harr, Hobj, Hprops.
  match goal with
  | |- context [forEach ?l ?c ?a ?v] => destruct (forEach l c a v) as [[[r|e] v1]|]
  end; reflexivity.
Qed.
End ResolverCases.

(** An exception leaves [resolveTypeRecursively] only when the text of the
    very type it was called on cannot be obtained. *)
Lemma resolve_throw_inv F fuel type maxDepth currentDepth visited message visited' :
  resolveTypeRecursively F fuel type maxDepth currentDepth visited
    = Some (Throw message, visited') ->
  currentDepth <= maxDepth /\ getText F type = Throw message /\ visited' = visited.
Proof.
  destruct fuel as [|fuel]; simpl; destruct (currentDepth >? maxDepth) eqn:Hd;
    unfold_monad; try discriminate.
  rewrite Z.gtb_ltb in Hd. apply Z.ltb_ge in Hd.
  destruct (getText F type) as [typeName|e]; [|intros [= <- <-]; auto].
  destruct (bool_decide (typeName ∈ visited)); [discriminate|].
  match goal with |- context [resolveStructure ?a ?b ?c ?d ?v] =>
    destruct (resolveStructure a b c d v) as [[[r|e] v1]|] end; discriminate.
Qed.

(** ** Termination and size *)

Lemma fuel_for_step maxDepth currentDepth :
  currentDepth <= maxDepth ->
  fuel_for maxDepth currentDepth = S (fuel_for maxDepth (currentDepth + 1)).
Proof. unfold fuel_for. lia. Qed.

Lemma resolve_returns F fuel :
  ∀ type maxDepth currentDepth,
    (fuel_for maxDepth currentDepth <= fuel)%nat ->
    returns (resolveTypeRecursively F fuel type maxDepth currentDepth).
Proof.
  induction fuel as [|fuel IH]; intros type maxDepth currentDepth Hfuel; simpl;
    destruct (currentDepth >? maxDepth) eqn:Hd; try apply returns_ret;
    rewrite Z.gtb_ltb in Hd; apply Z.ltb_ge in Hd.
  - unfold fuel_for in Hfuel. lia.
  - assert (Hdeeper : ∀ t, returns (resolveTypeRecursively F fuel t maxDepth (currentDepth + 1))).
    { intros t. apply IH. rewrite fuel_for_step in Hfuel by assumption. lia. }
    apply returns_bind; [apply returns_call|]. intros typeName.
    apply returns_bind; [intros v; unfold visited_has; eauto|]. intros [|].
    { apply returns_ret. }
    apply returns_bind; [intros v; unfold visited_add; eauto|]. intros _.
    apply returns_tryCatch; [|intros e; apply returns_ret].
    unfold resolveStructure.
    apply returns_bind; [apply returns_call|]. intros [|].
    + apply returns_bind; [apply returns_call|]. intros elementType.
      apply returns_bind; [apply Hdeeper|]. intros inner.
      apply returns_bind; [apply returns_call|]. intros text. apply returns_ret.
    + apply returns_bind; [apply returns_call|]. intros [|]; [|apply returns_ret].
      apply returns_bind; [apply returns_call|]. intros properties.
      apply returns_bind; [|intros result; apply returns_ret].
      apply returns_forEach. intros prop acc. unfold resolveProperty.
      apply returns_bind; [apply returns_call|]. intros propType.
      apply returns_bind; [apply Hdeeper|]. intros r. apply returns_ret.
Qed.




(** [resolveType] never meets its out-of-fuel case. *)
Lemma resolveType_eq F type maxDepth :
  ∃ visited',
    resolveTypeRecursively F (fuel_for maxDepth 0) type maxDepth 0 ∅
    = Some (resolveType F type maxDepth, visited').
Proof.
  unfold resolveType.
  destruct (resolve_returns F (fuel_for maxDepth 0) type maxDepth 0 (le_n _) ∅)
    as [[outcome visited'] ->].
  eauto.
Qed.

(** ** The depth guard *)

(** C5. A type reached at a depth strictly greater than [maxDepth] resolves
    to exactly the max-depth marker, whatever the facade would answer and
    whatever [visited] holds (also when it holds the type's own key), and
    [visited] is returned unchanged: the guard runs before the key is even
    computed. *)
Theorem resolve_beyond_max_depth F fuel type maxDepth currentDepth visited :
  maxDepth < currentDepth ->
  resolveTypeRecursively F fuel type maxDepth currentDepth visited
  = Some (Normal (encode MaxDepth), visited).
Proof.
  intros Hdeep.
  assert (Hguard : (currentDepth >? maxDepth) = true).
  { rewrite Z.gtb_ltb. by apply Z.ltb_lt. }
  destruct fuel; simpl; rewrite Hguard; reflexivity.
Qed.

Lemma resolve_beyond_max_depth_witness :
  resolveTypeRecursively selfReferential 0 0%nat 2 3 {[ "Node" ]}
  = Some (Normal (encode MaxDepth), {[ "Node" ]}).
Proof.
  apply (resolve_beyond_max_depth selfReferential 0 0%nat 2 3 {[ "Node" ]}).
  lia.
Defined.

(** ** Self-reference *)

(** An object type whose first property cannot be asked for its type: the
    exception leaves the loop at its first pass and is caught by the
    handler of the object type. *)
Lemma first_property_type_throws F fuel type typeName prop rest message
    maxDepth currentDepth visited :
  currentDepth <= maxDepth ->
  getText F type = Normal typeName ->
  typeName ∉ visited ->
  isArray F type = Normal false ->
  isObject F type = Normal true ->
  getProperties F type = Normal (prop :: rest) ->
  symType prop = Throw message ->
  resolveTypeRecursively F (S fuel) type maxDepth currentDepth visited
  = Some (Normal (JStr (errorText typeName message)), {[typeName]} ∪ visited).
Proof.
  intros Hdepth Htext Hfresh Harr Hobj Hprops Hthrow.
  rewrite (resolve_object F maxDepth currentDepth fuel type typeName (prop :: rest))
    by assumption.
  by rewrite forEach_cons, resolveProperty_run, Hthrow.
Qed.

(** C3. A self-referential object type [T = { next: T }] as ts-morph
    presents it (the symbol of [next] has no [getType]), resolved from depth
    0 with an empty [visited] set and any [maxDepth >= 0]: the result is the
    error string naming [T], not the object whose property [next] holds the
    circular marker.  The root is not expanded and its recursive occurrence
    is never reached. *)
Theorem self_reference_resolves_to_error F T typeName maxDepth :
  getText F T = Normal typeName ->
  isArray F T = Normal false ->
  isObject F T = Normal true ->
  getProperties F T = Normal [tsMorphProperty "next"] ->
  0 <= maxDepth ->
  resolveType F T maxDepth = Normal (encode (Error (errorText typeName GET_TYPE_MISSING)))
  ∧ resolveType F T maxDepth <> Normal (encode (ObjectOf [("next", Circular)])).
Proof.
  intros Htext Harr Hobj Hprops Hdepth.
  assert (Hrun : resolveType F T maxDepth
                 = Normal (encode (Error (errorText typeName GET_TYPE_MISSING)))).
  { unfold resolveType. rewrite (fuel_for_step maxDepth 0) by lia.
    rewrite (first_property_type_throws F _ T typeName (tsMorphProperty "next") []
               GET_TYPE_MISSING maxDepth 0 ∅);
      [reflexivity|lia|assumption|set_solver|assumption..|reflexivity]. }
  split; [exact Hrun|]. rewrite Hrun. discriminate.
Qed.

Lemma self_reference_resolves_to_error_witness :
  resolveType selfReferentialParsed 0%nat 1
  = Normal (encode (Error (errorText "Node" GET_TYPE_MISSING)))
  ∧ resolveType selfReferentialParsed 0%nat 1
    <> Normal (encode (ObjectOf [("next", Circular)])).
Proof.
  apply (self_reference_resolves_to_error selfReferentialParsed 0%nat "Node" 1);
    [reflexivity | reflexivity | reflexivity | reflexivity | lia].
Defined.

(** Once the symbol answers [getType], the same type resolves as the
    marker text promises. *)
Example self_reference_on_double :
  resolveType selfReferential 0%nat 1 = Normal (encode (ObjectOf [("next", Circular)])).
Proof. reflexivity. Qed.

(** ** The shared [visited] set *)

Lemma grows_ret {A} (a : A) : grows (ret a).
Proof. intros v c v'. unfold ret. intros [= <- <-]. done. Qed.

Lemma grows_call {A} (c : Completion A) : grows (call c).
Proof. intros v c' v'. unfold call. intros [= <- <-]. done. Qed.

Lemma grows_bind {A B} (m : M A) (k : A -> M B) :
  grows m -> (∀ a, grows (k a)) -> grows (bind m k).
Proof.
  intros Hm Hk v c v'. unfold bind.
  destruct (m v) as [[[a|e] v1]|] eqn:E; try discriminate.
  - intros Hrun. apply Hm in E. apply Hk in Hrun. set_solver.
  - intros [= <- <-]. by apply Hm in E.
Qed.

Lemma grows_tryCatch {A} (m : M A) (handler : string -> M A) :
  grows m -> (∀ e, grows (handler e)) -> grows (tryCatch m handler).
Proof.
  intros Hm Hh v c v'. unfold tryCatch.
  destruct (m v) as [[[a|e] v1]|] eqn:E; try discriminate.
  - intros [= <- <-]. by apply Hm in E.
  - intros Hrun. apply Hm in E. apply Hh in Hrun. set_solver.
Qed.

Lemma grows_forEach {A St} (l : list A) (callback : A -> St -> M St) :
  (∀ x acc, grows (callback x acc)) -> ∀ acc, grows (forEach l callback acc).
Proof.
  intros Hc. induction l as [|x rest IH]; intros acc; simpl.
  - apply grows_ret.
  - apply grows_bind; auto.
Qed.

Lemma grows_resolveStructure F resolveDeeper type typeName :
  (∀ t, grows (resolveDeeper t)) ->
  grows (resolveStructure F resolveDeeper type typeName).
Proof.
  intros Hdeeper. unfold resolveStructure.
  apply grows_bind; [apply grows_call|]. intros [|].
  - apply grows_bind; [apply grows_call|]. intros elementType.
    apply grows_bind; [apply Hdeeper|]. intros inner.
    apply grows_bind; [apply grows_call|]. intros text. apply grows_ret.
  - apply grows_bind; [apply grows_call|]. intros [|]; [|apply grows_ret].
    apply grows_bind; [apply grows_call|]. intros properties.
    apply grows_bind; [|intros result; apply grows_ret].
    apply grows_forEach. intros prop acc. unfold resolveProperty.
    apply grows_bind; [apply grows_call|]. intros propType.
    apply grows_bind; [apply Hdeeper|]. intros r. apply grows_ret.
Qed.

(** Nothing is ever removed from [visited]. *)
Lemma resolve_visited_grows F fuel :
  ∀ type maxDepth currentDepth,
    grows (resolveTypeRecursively F fuel type maxDepth currentDepth).
Proof.
  induction fuel as [|fuel IH]; intros type maxDepth currentDepth; simpl;
    destruct (currentDepth >? maxDepth); try apply grows_ret.
  - intros v c v' H. discriminate.
  - apply grows_bind; [apply grows_call|]. intros typeName.
    apply grows_bind. { intros v c v'. unfold visited_has. intros [= <- <-]. done. }
    intros [|]; [apply grows_ret|].
    apply grows_bind. { intros v c v'. unfold visited_add. intros [= <- <-]. set_solver. }
    intros _. apply grows_tryCatch; [|intros e; apply grows_ret].
    apply grows_resolveStructure. intros t. apply IH.
Qed.

(** Once a type has been looked at within the depth budget, its key is in
    [visited] for the rest of the resolution. *)
Lemma resolve_key_stays F fuel type typeName maxDepth currentDepth visited outcome visited' :
  currentDepth <= maxDepth ->
  getText F type = Normal typeName ->
  resolveTypeRecursively F fuel type maxDepth currentDepth visited
    = Some (outcome, visited') ->
  typeName ∈ visited'.
Proof.
  intros Hdepth Htext Hrun.
  destruct fuel as [|fuel].
  { simpl in Hrun. rewrite depth_guard_false in Hrun by assumption. discriminate. }
  destruct (decide (typeName ∈ visited)) as [Hseen|Hfresh].
  - apply resolve_visited_grows in Hrun. set_solver.
  - rewrite (resolve_enter F maxDepth currentDepth fuel type typeName) in Hrun
      by assumption.
    assert (Hgrows : {[typeName]} ∪ visited ⊆ visited'); [|set_solver].
    revert Hrun. apply grows_tryCatch; [|intros e; apply grows_ret].
    apply grows_resolveStructure. intros t. apply resolve_visited_grows.
Qed.

(** X23. Of two occurrences of one type text within the depth budget,
    resolved one after the other in the same resolution, the later one is
    reported as circular, whatever happened in between, whether or not the
    earlier one is an ancestor of it, and whether or not the two are the
    same type: the key is the text. *)
Lemma resolve_again_is_circular F fuel fuel' type type' typeName maxDepth depth depth'
    visited outcome visited1 visited2 :
  depth <= maxDepth ->
  depth' <= maxDepth ->
  getText F type = Normal typeName ->
  getText F type' = Normal typeName ->
  resolveTypeRecursively F fuel type maxDepth depth visited = Some (outcome, visited1) ->
  visited1 ⊆ visited2 ->
  resolveTypeRecursively F (S fuel') type' maxDepth depth' visited2
  = Some (Normal (JStr CIRCULAR_TEXT), visited2).
Proof.
  intros Hd Hd' Htext Htext' Hfirst Hlater.
  apply (resolve_circular F maxDepth depth' fuel' type' typeName); [assumption..|].
  eapply resolve_key_stays in Hfirst; eauto.
Qed.

(** C1. Two sibling properties with the same type key, neither an ancestor
    of the other: in [{ a: Item; b: Item }] with [Item = { id: string }] and
    [maxDepth = 2], the first sibling is expanded and the second is
    reported as circular, because the key [Item] added while resolving [a]
    is still in the shared [visited] set when [b] is resolved. *)
Theorem second_sibling_reported_circular :
  resolveType twoSiblings 0%nat 2
  = Normal (JObj [("a", JObj [("id", JStr "string")]); ("b", JStr CIRCULAR_TEXT)])
  ∧ resolveType twoSiblings 1%nat 2 = Normal (JObj [("id", JStr "string")]).
Proof. split; reflexivity. Qed.

(** ** Arrays *)

(** C4, as the code has it. An array type within the depth budget whose own
    key is not yet in [visited] resolves to a one-element array holding a
    description string: the text [Array of: ] followed by what the element
    type resolves to, one level deeper and with the array's key added to
    [visited], when that is a string (a leaf's text or a marker). *)
Theorem resolve_array_describes_element F fuel type typeName elementType text
    maxDepth currentDepth visited visited' :
  currentDepth <= maxDepth ->
  getText F type = Normal typeName ->
  typeName ∉ visited ->
  isArray F type = Normal true ->
  getArrayElementType F type = Normal elementType ->
  resolveTypeRecursively F fuel elementType maxDepth (currentDepth + 1)
    ({[typeName]} ∪ visited) = Some (Normal (JStr text), visited') ->
  resolveTypeRecursively F (S fuel) type maxDepth currentDepth visited
  = Some (Normal (JArr [JStr ("Array of: " +:+ text)]), visited').
Proof.
  intros Hdepth Htext Hfresh Harr Helem Hinner.
  by rewrite (resolve_array F maxDepth currentDepth fuel type typeName elementType
                (JStr text) visited visited').
Qed.

Lemma resolve_array_describes_element_witness :
  resolveTypeRecursively arrayTypes 3 0%nat 2 0 ∅
  = Some (Normal (JArr [JStr ("Array of: " +:+ "string")]),
          {["string"]} ∪ ({["string[]"]} ∪ ∅)).
Proof.
  apply (resolve_array_describes_element arrayTypes 2 0%nat "string[]" 1%nat "string"
           2 0 ∅ ({["string"]} ∪ ({["string[]"]} ∪ ∅))).
  - lia.
  - reflexivity.
  - set_solver.
  - reflexivity.
  - reflexivity.
  - reflexivity.
Defined.

(** C4, as stated, fails: the value returned for an array is not the
    one-element array of the element's own resolved value.  For [string[]]
    the element resolves to ["string"] and the array to
    [["Array of: string"]]; for [Item[]] the element resolves to the object
    [{ id: "string" }] and the array to [["Array of: [object Object]"]]. *)
Lemma array_result_is_not_ArrayOf_element :
  (∃ inner visited1 out visited2,
      resolveTypeRecursively arrayTypes 2 1%nat 2 (0 + 1) ({["string[]"]} ∪ ∅)
        = Some (Normal inner, visited1)
      ∧ resolveTypeRecursively arrayTypes 3 0%nat 2 0 ∅ = Some (Normal out, visited2)
      ∧ inner = encode (Leaf "string")
      ∧ out <> JArr [inner])
  ∧ (∃ inner visited1 out visited2,
      resolveTypeRecursively arrayTypes 2 3%nat 2 (0 + 1) ({["Item[]"]} ∪ ∅)
        = Some (Normal inner, visited1)
      ∧ resolveTypeRecursively arrayTypes 3 2%nat 2 0 ∅ = Some (Normal out, visited2)
      ∧ inner = encode (ObjectOf [("id", Leaf "string")])
      ∧ out <> JArr [inner]).
Proof.
  split.
  - eexists _, _, _, _.
    split; [reflexivity|]. split; [reflexivity|]. split; [reflexivity|discriminate].
  - eexists _, _, _, _.
    split; [reflexivity|]. split; [reflexivity|]. split; [reflexivity|discriminate].
Qed.

(** ** End to end: [Card] *)

Ltac fresh_key :=
  rewrite ?not_elem_of_union, ?not_elem_of_singleton;
  repeat split; try apply not_elem_of_empty; congruence.

(** C2. For the file whose only export is
    [function Card(props: { title: string; tags: string[] })], as ts-morph
    presents it: whatever the type checker would answer and whatever
    [maxDepth] is, the report is empty and the skipped count is 1.  No guard
    answers on the node of [Card], so [Card] is never taken for a component,
    its parameter is never looked at, and the result mapping has no entry
    for it. *)
Theorem card_file_is_skipped F maxDepth :
  analyzeComponentProps F maxDepth cardFileParsed = ([], 1%nat)
  ∧ classify F tsMorphNode = Normal NotAComponent
  ∧ obj_get (fst (analyzeComponentProps F maxDepth cardFileParsed)) "Card" = None.
Proof. split; [reflexivity|]. split; reflexivity. Qed.

(** On a node that does answer [isFunction()], with symbols that do answer
    [getType()], [Card] is recorded; its [tags] are described by a string,
    and that string reports the element type [string] as circular, the
    property [title] having been resolved before it. *)
Example card_report_exact :
  analyzeComponentProps cardTypes 2 cardFile
  = ([("Card", JObj [("title", JStr "string");
                     ("tags", JArr [JStr "Array of: Circular reference"])])], 0%nat).
Proof. reflexivity. Qed.

(** ** Failures while resolving a property *)

(** C6, as stated, fails: asking a property for its type throws, and the
    result is not an object in which that property alone holds an error
    while its siblings hold their shapes; the exception is caught by the
    handler of the enclosing object type, whose whole result becomes the
    error string.  On ts-morph this is what happens at the first property of
    every object type. *)
Lemma property_type_failure_replaces_object :
  resolveType threePropertiesParsed 0%nat 2
  = Normal (encode (Error (errorText "{ a: string; b: Config; c: number; }"
                             GET_TYPE_MISSING)))
  ∧ ∀ obj, resolveType threePropertiesParsed 0%nat 2 <> Normal (JObj obj).
Proof. split; [reflexivity | intros obj; vm_compute; discriminate]. Qed.

(** The same on a double where only the second property throws: the entry
    built for the first one is dropped. *)
Example second_property_type_failure :
  resolveType brokenPropertyType 0%nat 2
  = Normal (JStr (errorText "{ a: string; b: Config; c: number; }" "boom")).
Proof. reflexivity. Qed.

(** A failure inside the call that resolves the property's own type is
    caught there, by that call. *)
Example structure_failure_stays_local :
  resolveType brokenPropertyStructure 0%nat 2
  = Normal (JObj [("a", JStr "string");
                  ("b", JStr (errorText "Config" "boom"));
                  ("c", JStr "number")]).
Proof. reflexivity. Qed.

(** C6, as the code has it.  A failure is local to the call of the resolver
    whose [try] block it occurs in, and [prop.getType()] is called in the
    block of the enclosing object type.  So when asking a property for its
    type throws, after the properties before it (if any) were resolved
    without exception, the enclosing type, reached within the depth budget
    with its key not yet in [visited], resolves to the error string that
    names the enclosing type and carries the message: the entries built for
    the earlier properties are dropped, the later properties are not
    visited, and the call returns normally, so its own caller goes on with
    that string. *)
Theorem property_type_failure_is_caught_by_enclosing_type F fuel type typeName
    before prop after message partial maxDepth currentDepth visited visited1 :
  currentDepth <= maxDepth ->
  getText F type = Normal typeName ->
  typeName ∉ visited ->
  isArray F type = Normal false ->
  isObject F type = Normal true ->
  getProperties F type = Normal (before ++ prop :: after)%list ->
  forEach before
    (resolveProperty (fun t => resolveTypeRecursively F fuel t maxDepth (currentDepth + 1)))
    [] ({[typeName]} ∪ visited) = Some (Normal partial, visited1) ->
  symType prop = Throw message ->
  resolveTypeRecursively F (S fuel) type maxDepth currentDepth visited
  = Some (Normal (encode (Error (errorText typeName message))), visited1)
  ∧ ∀ obj, resolveTypeRecursively F (S fuel) type maxDepth currentDepth visited
           <> Some (Normal (JObj obj), visited1).
Proof.
  intros Hdepth Htext Hfresh Harr Hobj Hprops Hbefore Hthrow.
  assert (Hrun : resolveTypeRecursively F (S fuel) type maxDepth currentDepth visited
                 = Some (Normal (encode (Error (errorText typeName message))), visited1)).
  { rewrite (resolve_object F maxDepth currentDepth fuel type typeName
               (before ++ prop :: after)) by assumption.
    rewrite forEach_app. unfold bind. rewrite Hbefore.
    by rewrite forEach_cons, resolveProperty_run, Hthrow. }
  split; [exact Hrun|]. intros obj. rewrite Hrun. discriminate.
Qed.

Lemma property_type_failure_is_caught_by_enclosing_type_witness :
  resolveTypeRecursively threePropertiesParsed 3 0%nat 2 0 ∅
  = Some (Normal (encode (Error (errorText "{ a: string; b: Config; c: number; }"
                                   GET_TYPE_MISSING))),
          {["{ a: string; b: Config; c: number; }"]} ∪ ∅)
  ∧ ∀ obj, resolveTypeRecursively threePropertiesParsed 3 0%nat 2 0 ∅
           <> Some (Normal (JObj obj), {["{ a: string; b: Config; c: number; }"]} ∪ ∅).
Proof.
  apply (property_type_failure_is_caught_by_enclosing_type threePropertiesParsed 2 0%nat
           "{ a: string; b: Config; c: number; }"
           [] (tsMorphProperty "a") [tsMorphProperty "b"; tsMorphProperty "c"]
           GET_TYPE_MISSING [] 2 0 ∅).
  - lia.
  - reflexivity.
  - set_solver.
  - reflexivity.
  - reflexivity.
  - reflexivity.
  - reflexivity.
  - reflexivity.
Defined.

(** ** Classification of [forwardRef] wrappers *)

(** C7. A variable initialized by a call of [forwardRef] imported from
    [react] is not classified as a forward-ref component.  The node ts-morph
    hands over answers no guard, so [isForwardRef] is false at l.70 and the
    declaration is classified as no component.  And on a node whose guards
    of l.70 and l.73 did answer, the callee being as ts-morph presents it,
    the lookup of l.94 finds no import declaration, so the import source is
    [null], never ["react"], whatever the callee's text and the type
    arguments of the call.  The tests themselves are as the classification
    needs them: with the import declaration found, the import source is its
    module, and the same declaration is accepted for [react] and for no
    other module. *)
Theorem react_forwardRef_is_not_recognised F text typeArguments :
  let guarded := VariableDeclaration
                   (Some (CallExpression (tsMorphCallee text) typeArguments)) in
  isForwardRef tsMorphNode = false
  ∧ classify F tsMorphNode = Normal NotAComponent
  ∧ resolveImportSource (tsMorphCallee text) = None
  ∧ isForwardRef guarded = false
  ∧ classify F guarded = Normal NotAComponent
  ∧ ∀ module,
      resolveImportSource (importedCallee "forwardRef" module) = Some module
      ∧ (isForwardRef (forwardRefVariable module typeArguments) = true
         <-> module = "react").
Proof.
  simpl. split; [reflexivity|]. split; [reflexivity|]. split; [reflexivity|].
  unfold classify. simpl.
  destruct (endsWith text "forwardRef"); simpl;
    (split; [reflexivity|]; split; [reflexivity|]);
    intros module; (split; [reflexivity|]); apply String.eqb_eq.
Qed.

(** Once the guards answer and the import declaration is found, the module
    decides. *)
Example forwardRef_on_double :
  classify cardTypes (forwardRefVariable "react" [5%nat; 0%nat]) = Normal ForwardRefComponent
  ∧ extractForwardRefPropsType (forwardRefVariable "react" [5%nat; 0%nat]) = Some 0%nat
  ∧ classify cardTypes (forwardRefVariable "preact/compat" [5%nat; 0%nat])
    = Normal NotAComponent.
Proof. repeat split. Qed.

(** ** Forward-ref wrappers without a props type *)







Example forwardRef_without_props_report :
  analyzeComponentProps wrapperTypeNodes 2
    [ ("Button", [OtherDeclaration; forwardRefVariable "react" [0%nat]]);
      ("Input", [forwardRefVariable "react" [0%nat; 1%nat]]) ]
  = ([("Input", JStr (errorText "InputProps" IS_ARRAY_MISSING))], 2%nat).
Proof. reflexivity. Qed.

(** ** Declarations that throw *)

Section AggregatorFacts.
Variable F : Facade.
Variable maxDepth : Z.








(** The three things a pass of the loop can do to the state. *)
Lemma processDeclaration_cases name st declaration :
  let st' := processDeclaration F maxDepth name st declaration in
  st' = skip st
  ∨ (∃ shape, st' = {| result := obj_set (result st) name shape;
                       skippedCount := skippedCount st;
                       processed := true |})
  ∨ (st' = st ∧ processed st = true).
Proof.
  assert (Hrecord : ∀ propsType s s',
            record F maxDepth name propsType s = Normal s' ->
            ∃ shape, s' = {| result := obj_set (result s) name shape;
                             skippedCount := skippedCount s;
                             processed := true |}).
  { intros propsType s s'. unfold record.
    destruct (getText F propsType); [simpl|discriminate].
    destruct (resolveType F propsType maxDepth) as [shape|]; [simpl|discriminate].
    intros [= <-]. eauto. }
  simpl. unfold processDeclaration.
  destruct (declarationBody F maxDepth name declaration st) as [st'|e] eqn:Hbody;
    [|by left].
  unfold declarationBody in Hbody.
  destruct (isForwardRef declaration).
  - destruct (extractForwardRefPropsType declaration) as [propsType|].
    + destruct (record F maxDepth name propsType st) as [st1|e] eqn:Hrec;
        [simpl in Hbody|discriminate].
      apply Hrecord in Hrec as [shape ->]. simpl in Hbody.
      injection Hbody as <-. right. left. eauto.
    + simpl in Hbody. destruct (processed st) eqn:Hflag; simpl in Hbody.
      * rewrite Hflag in Hbody. injection Hbody as <-. right. right. auto.
      * destruct (isReactComponent F declaration) as [[|]|e];
          simpl in Hbody; try discriminate.
        -- destruct (extractPropsType declaration) as [[propsType|]|e];
             simpl in Hbody; try discriminate.
           ++ destruct (record F maxDepth name propsType st) as [st1|e] eqn:Hrec;
                [simpl in Hbody|discriminate].
              apply Hrecord in Hrec as [shape ->]. simpl in Hbody.
              injection Hbody as <-. right. left. eauto.
           ++ rewrite Hflag in Hbody. injection Hbody as <-. by left.
        -- rewrite Hflag in Hbody. injection Hbody as <-. by left.
  - simpl in Hbody. destruct (processed st) eqn:Hflag; simpl in Hbody.
    + rewrite Hflag in Hbody. injection Hbody as <-. right. right. auto.
    + destruct (isReactComponent F declaration) as [[|]|e];
        simpl in Hbody; try discriminate.
      * destruct (extractPropsType declaration) as [[propsType|]|e];
          simpl in Hbody; try discriminate.
        -- destruct (record F maxDepth name propsType st) as [st1|e] eqn:Hrec;
             [simpl in Hbody|discriminate].
           apply Hrecord in Hrec as [shape ->]. simpl in Hbody.
           injection Hbody as <-. right. left. eauto.
        -- rewrite Hflag in Hbody. injection Hbody as <-. by left.
      * rewrite Hflag in Hbody. injection Hbody as <-. by left.
Qed.





End AggregatorFacts.


Example broken_then_card_report :
  analyzeComponentProps cardTypes 2 brokenThenCardFile
  = ([("Card", JObj [("title", JStr "string");
                     ("tags", JArr [JStr "Array of: Circular reference"])])], 1%nat).
Proof. reflexivity. Qed.

(** * Further properties of analyzeProps.js *)

(** ** Declarations of a name already recorded *)

(** X3. Once a declaration of a name has been recorded, a further
    declaration of that name that is not a forward-ref wrapper with a props
    type changes nothing: it is neither examined as a direct component (so
    no facade query can throw), nor recorded, nor counted as skipped. *)
Theorem processed_name_ignores_declaration F maxDepth name declaration st :
  processed st = true ->
  isForwardRef declaration = false ∨ extractForwardRefPropsType declaration = None ->
  processDeclaration F maxDepth name st declaration = st.
Proof.
  intros Hflag Hnot. unfold processDeclaration, declarationBody.
  assert (Hfirst : (if isForwardRef declaration
                    then match extractForwardRefPropsType declaration with
                         | Some propsType => record F maxDepth name propsType st
                         | None => Normal st
                         end
                    else Normal st) = Normal st).
  { destruct Hnot as [-> | ->]; [reflexivity|]. by destruct (isForwardRef declaration). }
  rewrite Hfirst. simpl. rewrite Hflag. simpl. by rewrite Hflag.
Qed.

Lemma processed_name_ignores_declaration_witness :
  processDeclaration cardTypes 2 "Card"
    {| result := []; skippedCount := 0; processed := true |}
    (FunctionDeclaration [ {| paramType := 7%nat |} ])
  = {| result := []; skippedCount := 0; processed := true |}.
Proof.
  apply (processed_name_ignores_declaration cardTypes 2 "Card"
           (FunctionDeclaration [ {| paramType := 7%nat |} ])
           {| result := []; skippedCount := 0; processed := true |}).
  - reflexivity.
  - left. reflexivity.
Defined.

(** ** Accounting of the report *)

Section Accounting.
Variable F : Facade.
Variable maxDepth : Z.

Lemma accounted_set names budget r n name shape :
  name ∈ names ->
  accounted names budget r n ->
  accounted names (S budget) (obj_set r name shape) n.
Proof.
  intros Hname (Hnodup & Hkeys & Hcount). unfold accounted.
  split; [by apply obj_set_NoDup|]. split.
  - intros key Hkey. apply obj_set_keys in Hkey as [Hkey|[-> _]]; auto.
  - rewrite obj_set_length. destruct (bool_decide _); lia.
Qed.

Lemma accounted_declarations names name declarations :
  name ∈ names ->
  ∀ budget st,
    accounted names budget (result st) (skippedCount st) ->
    let st' := fold_left (processDeclaration F maxDepth name) declarations st in
    accounted names (List.length declarations + budget) (result st') (skippedCount st').
Proof.
  intros Hname. induction declarations as [|d rest IH]; intros budget st Hacc; simpl.
  - exact Hacc.
  - replace (S (List.length rest + budget)) with (List.length rest + S budget)%nat by lia.
    apply IH.
    destruct (processDeclaration_cases F maxDepth name st d)
      as [-> | [[shape ->] | [-> _]]]; simpl.
    + destruct Hacc as (Hnodup & Hkeys & Hcount). split; [done|]. split; [done|]. lia.
    + by apply accounted_set.
    + destruct Hacc as (Hnodup & Hkeys & Hcount). split; [done|]. split; [done|]. lia.
Qed.

Lemma accounted_names names components :
  (∀ entry, entry ∈ components -> fst entry ∈ names) ->
  ∀ budget acc,
    accounted names budget (fst acc) (snd acc) ->
    let acc' := fold_left (processName F maxDepth) components acc in
    accounted names (declarationCount components + budget) (fst acc') (snd acc').
Proof.
  induction components as [|[name declarations] rest IH]; intros Hnames budget acc Hacc;
    simpl.
  - exact Hacc.
  - unfold declarationCount. simpl. rewrite length_app.
    replace (List.length declarations + List.length (concat (map snd rest)) + budget)%nat
      with (declarationCount rest + (List.length declarations + budget))%nat
      by (unfold declarationCount; lia).
    apply IH.
    + intros entry Hentry. apply Hnames. by right.
    + unfold processName, report. simpl.
      apply (accounted_declarations names name declarations); [|exact Hacc].
      apply (Hnames (name, declarations)). by left.
Qed.

(** X4. For every file: the keys of the report are distinct, each is the
    name of an exported entry, and recorded entries plus skipped exports
    never exceed the number of exported declarations. *)
Theorem report_accounts_for_declarations components :
  let outcome := analyzeComponentProps F maxDepth components in
  NoDup (obj_keys (fst outcome))
  ∧ (∀ key, key ∈ obj_keys (fst outcome) -> key ∈ map fst components)
  ∧ (List.length (fst outcome) + snd outcome <= declarationCount components)%nat.
Proof.
  simpl. unfold analyzeComponentProps.
  pose proof (accounted_names (map fst components) components) as H.
  specialize (H (fun entry Hentry => proj2 (list_elem_of_In _ _)
                   (in_map fst _ _ (proj1 (list_elem_of_In _ _) Hentry)))
                0%nat ([], 0%nat)).
  simpl in H. rewrite Nat.add_0_r in H. apply H.
  split; [apply NoDup_nil_2|]. split; [|simpl; lia].
  intros key Hkey. by apply elem_of_nil in Hkey.
Qed.
End Accounting.

Section AccountingExact.
Variable F : Facade.
Variable maxDepth : Z.

Lemma processName_single acc name declaration :
  name ∉ obj_keys (fst acc) ->
  let acc' := processName F maxDepth acc (name, [declaration]) in
  let before := (List.length (fst acc) + snd acc)%nat in
  let after := (List.length (fst acc') + snd acc')%nat in
  (name <> PROTO -> after = S before)
  ∧ (before <= after <= S before)%nat
  ∧ ∀ key, key ∈ obj_keys (fst acc') -> key ∈ obj_keys (fst acc) ∨ key = name.
Proof.
  intros Hfresh. simpl. unfold processName, report. simpl.
  destruct (processDeclaration_cases F maxDepth name (startName acc) declaration)
    as [-> | [[shape ->] | [_ Hflag]]]; simpl.
  - split; [lia|]. split; [lia | auto].
  - rewrite obj_set_length. split; [|split].
    + intros Hproto.
      rewrite bool_decide_eq_false_2 by (intros [?|?]; contradiction). lia.
    + destruct (bool_decide _); lia.
    + intros key Hkey. apply obj_set_keys in Hkey as [Hkey|[-> _]]; auto.
  - discriminate.
Qed.

(** X5. When every exported name has exactly one declaration (and names are
    distinct, as the keys of the export map are), every declaration is
    either recorded or counted as skipped, never both: entries plus skipped
    exports never exceed the number of exports; and never neither, so that
    the two are equal, as long as no export is named [__proto__].  (A
    component exported under that name is recorded through the accessor
    inherited from [Object.prototype], which stores nothing: it has no
    entry and is not counted either, and the sum falls short by that one.) *)
Theorem report_accounts_for_every_declaration components :
  NoDup (map fst components) ->
  (∀ entry, entry ∈ components -> ∃ declaration, snd entry = [declaration]) ->
  let outcome := analyzeComponentProps F maxDepth components in
  (PROTO ∉ map fst components ->
   List.length (fst outcome) + snd outcome = List.length components)%nat
  ∧ (List.length (fst outcome) + snd outcome <= List.length components)%nat
  ∧ (List.length components <= S (List.length (fst outcome) + snd outcome))%nat.
Proof.
  intros Hnodup Hsingle. simpl. unfold analyzeComponentProps.
  assert (Hgen : ∀ acc,
            (∀ entry, entry ∈ components -> fst entry ∉ obj_keys (fst acc)) ->
            let acc' := fold_left (processName F maxDepth) components acc in
            let before := (List.length (fst acc) + snd acc)%nat in
            let after := (List.length (fst acc') + snd acc')%nat in
            (PROTO ∉ map fst components -> after = List.length components + before)%nat
            ∧ (after <= List.length components + before)%nat
            ∧ (List.length components + before
               <= after + (if bool_decide (PROTO ∈ map fst components) then 1 else 0))%nat).
  { clear -Hnodup Hsingle.
    induction components as [|[name declarations] rest IH]; intros acc Hfresh;
      cbn [fold_left List.length].
    - simpl. split; [reflexivity|]. split; lia.
    - destruct (Hsingle (name, declarations)) as [declaration Hone]; [by left|].
      simpl in Hone. subst declarations.
      inversion Hnodup as [|? ? Hnotin Hnodup']; subst.
      pose proof (processName_single acc name declaration) as Hone.
      cbv zeta in Hone. destruct Hone as (Hexact & Hbounds & Hkeys).
      { apply (Hfresh (name, [declaration])). by left. }
      cbv zeta in IH.
      destruct (IH Hnodup') with (acc := processName F maxDepth acc (name, [declaration]))
        as (IHexact & IHupper & IHlower).
      { intros entry Hentry. apply Hsingle. by right. }
      { intros entry Hentry Hin. apply Hkeys in Hin as [Hin | Heq].
        - apply (Hfresh entry); [by right | exact Hin].
        - apply Hnotin. rewrite <- Heq.
          apply list_elem_of_In, in_map. by apply list_elem_of_In. }
      cbn [map fst]. split; [|split].
      + intros Hproto. apply not_elem_of_cons in Hproto as [Hname Hproto'].
        rewrite (IHexact Hproto'), Hexact by congruence. lia.
      + lia.
      + destruct (decide (name = PROTO)) as [->|Hname].
        * rewrite bool_decide_eq_true_2 by (by left).
          rewrite IHexact; [lia|]. intros Hin. apply Hnotin.
          by apply list_elem_of_In.
        * rewrite Hexact in IHlower by assumption.
          destruct (bool_decide (PROTO ∈ map fst rest)) eqn:Hrest.
          -- rewrite bool_decide_eq_true_2; [lia|].
             right. by apply bool_decide_eq_true_1 in Hrest.
          -- destruct (bool_decide (PROTO ∈ name :: map fst rest)); lia. }
  destruct (Hgen ([], 0%nat)) as (Hexact & Hupper & Hlower).
  { intros entry _ Hin. by apply elem_of_nil in Hin. }
  simpl in *. split; [|split].
  - intros Hproto. rewrite (Hexact Hproto). lia.
  - lia.
  - destruct (bool_decide (PROTO ∈ map fst components)); lia.
Qed.

Lemma non_component_step name declaration st :
  classify F declaration = Normal NotAComponent ->
  processed st = false ->
  processDeclaration F maxDepth name st declaration = skip st.
Proof.
  intros Hclass Hflag. unfold classify in Hclass.
  unfold processDeclaration, declarationBody.
  destruct (isForwardRef declaration); [discriminate|]. simpl. rewrite Hflag. simpl.
  destruct (isReactComponent F declaration) as [[|]|e]; try discriminate.
  simpl. by rewrite Hflag.
Qed.

Lemma non_component_declarations name declarations :
  (∀ d, d ∈ declarations -> classify F d = Normal NotAComponent) ->
  ∀ st, processed st = false ->
    fold_left (processDeclaration F maxDepth name) declarations st
    = {| result := result st;
         skippedCount := (List.length declarations + skippedCount st)%nat;
         processed := false |}.
Proof.
  induction declarations as [|d rest IH]; intros Hall st Hflag; simpl.
  - destruct st; simpl in *. by subst.
  - rewrite non_component_step; [|apply Hall; by left|assumption].
    rewrite IH; [|intros d' Hd'; apply Hall; by right|assumption].
    simpl. f_equal. lia.
Qed.

Lemma non_component_names components :
  (∀ entry declaration,
     entry ∈ components -> declaration ∈ snd entry ->
     classify F declaration = Normal NotAComponent) ->
  ∀ acc,
    fold_left (processName F maxDepth) components acc
    = (fst acc, (declarationCount components + snd acc)%nat).
Proof.
  induction components as [|[name declarations] rest IH]; intros Hnone acc; simpl.
  - by destruct acc.
  - rewrite IH.
    2:{ intros entry d Hentry Hd. apply (Hnone entry d); [by right | exact Hd]. }
    unfold processName. simpl fst. simpl snd.
    rewrite non_component_declarations; [|
      intros d Hd; apply (Hnone (name, declarations) d); [by left | exact Hd] |
      reflexivity].
    unfold report, declarationCount. simpl. rewrite length_app. f_equal. lia.
Qed.

(** X6. A file none of whose exported declarations is a component (none is
    a forward-ref wrapper and the component test answers no for each)
    yields an empty report and a skipped count equal to the number of
    exported declarations. *)
Theorem non_components_are_all_skipped components :
  (∀ entry declaration,
     entry ∈ components -> declaration ∈ snd entry ->
     classify F declaration = Normal NotAComponent) ->
  analyzeComponentProps F maxDepth components = ([], declarationCount components).
Proof.
  intros Hnone. unfold analyzeComponentProps.
  rewrite non_component_names by assumption.
  simpl. f_equal. lia.
Qed.
End AccountingExact.

Lemma report_accounts_for_every_declaration_witness :
  let outcome := analyzeComponentProps cardTypes 2 brokenThenCardFile in
  (PROTO ∉ map fst brokenThenCardFile ->
   List.length (fst outcome) + snd outcome = List.length brokenThenCardFile)%nat
  ∧ (List.length (fst outcome) + snd outcome <= List.length brokenThenCardFile)%nat
  ∧ (List.length brokenThenCardFile <= S (List.length (fst outcome) + snd outcome))%nat.
Proof.
  apply (report_accounts_for_every_declaration cardTypes 2 brokenThenCardFile).
  - apply (bool_decide_unpack _). reflexivity.
  - intros entry Hentry.
    apply elem_of_cons in Hentry as [->|Hentry]; [eexists; reflexivity|].
    apply elem_of_cons in Hentry as [->|Hentry]; [eexists; reflexivity|].
    by apply elem_of_nil in Hentry.
Defined.

(** The export that is neither an entry nor a skip. *)
Example proto_export_is_unaccounted :
  analyzeComponentProps cardTypes 2
    [("__proto__", [FunctionDeclaration [ {| paramType := 0%nat |} ]])]
  = ([], 0%nat).
Proof. reflexivity. Qed.

Lemma non_components_are_all_skipped_witness :
  analyzeComponentProps cardTypes 2
    [ ("Props", [OtherDeclaration]);
      ("helper", [FunctionDeclaration []; OtherDeclaration]);
      ("ref", [forwardRefVariable "preact/compat" [0%nat; 0%nat]]) ]
  = ([], declarationCount
           [ ("Props", [OtherDeclaration]);
             ("helper", [FunctionDeclaration []; OtherDeclaration]);
             ("ref", [forwardRefVariable "preact/compat" [0%nat; 0%nat]]) ]).
Proof.
  apply (non_components_are_all_skipped cardTypes 2).
  intros entry declaration Hentry Hdecl.
  repeat (apply elem_of_cons in Hentry as [->|Hentry];
          [simpl in Hdecl;
           repeat (apply elem_of_cons in Hdecl as [->|Hdecl]; [reflexivity|]);
           by apply elem_of_nil in Hdecl|]).
  by apply elem_of_nil in Hentry.
Defined.

(** ** What the resolver returns *)

Lemma prefix_append (a b : string) : String.prefix a (a +:+ b) = true.
Proof.
  induction a as [|c a IH]; simpl.
  - by destruct b.
  - destruct (ascii_dec c c); [exact IH | contradiction].
Qed.

Lemma obj_set_all (P : JsVal -> bool) obj key v :
  forallb (fun p => P (snd p)) obj = true ->
  P v = true ->
  forallb (fun p => P (snd p)) (obj_set obj key v) = true.
Proof.
  rewrite !forallb_forall, <- !List.Forall_forall. intros Hobj Hv.
  by apply (obj_set_Forall (fun p => P (snd p) = true)).
Qed.

Lemma resolve_flat F fuel :
  ∀ type maxDepth currentDepth,
    ensures (resolveTypeRecursively F fuel type maxDepth currentDepth)
      (fun shape => isFlat shape = true).
Proof.
  induction fuel as [|fuel IH]; intros type maxDepth currentDepth; simpl;
    destruct (currentDepth >? maxDepth) eqn:Hd;
    try (apply ensures_ret; reflexivity).
  - intros v a v' H. discriminate.
  - apply ensures_bind. intros typeName.
    apply ensures_bind. intros [|]; [apply ensures_ret; reflexivity|].
    apply ensures_bind. intros _.
    apply ensures_tryCatch; [|intros e; apply ensures_ret; reflexivity].
    unfold resolveStructure.
    apply ensures_bind. intros [|].
    + apply ensures_bind. intros elementType.
      apply ensures_bind. intros inner.
      apply ensures_bind. intros text. apply ensures_ret.
      simpl. apply prefix_append.
    + apply ensures_bind. intros [|]; [|apply ensures_ret; reflexivity].
      apply ensures_bind. intros properties.
      apply ensures_bind_with
        with (P := fun obj : JsObj => forallb (fun p => isFlat (snd p)) obj = true).
      * apply ensures_forEach; [|reflexivity].
        intros prop acc Hacc. unfold resolveProperty.
        apply ensures_bind. intros propType.
        eapply ensures_bind_with; [apply IH|]. intros r Hr.
        apply ensures_ret. by apply obj_set_all.
      * intros result Hresult. by apply ensures_ret.
Qed.

(** X7. Whatever the resolver returns normally is a string, a one-element
    array holding a string that starts with [Array of: ], or an object
    whose values are again of this kind: an array never holds an object or
    another array, so the structure of array elements is always flattened
    to text. *)
Theorem resolve_output_is_flat F fuel type maxDepth currentDepth visited shape visited' :
  resolveTypeRecursively F fuel type maxDepth currentDepth visited
    = Some (Normal shape, visited') ->
  isFlat shape = true.
Proof. intros Hrun. eapply resolve_flat. exact Hrun. Qed.

Lemma resolve_output_is_flat_witness :
  isFlat (JObj [("title", JStr "string");
                ("tags", JArr [JStr "Array of: Circular reference"])]) = true.
Proof.
  apply (resolve_output_is_flat cardTypes 3 0%nat 2 0 ∅ _
           ({["string[]"]} ∪ ({["string"]} ∪ ({["{ title: string; tags: string[]; }"]} ∪ ∅)))).
  reflexivity.
Defined.

(** X8. An exception leaves the resolver exactly when the call is within
    the depth budget and the text of the very type it was called on cannot
    be rendered; the message is the facade's, and [visited] is then as it
    was on entry.  Every other failure is turned into an error string. *)
Theorem resolve_throws_iff F fuel type maxDepth currentDepth visited message :
  (fuel_for maxDepth currentDepth <= fuel)%nat ->
  (resolveTypeRecursively F fuel type maxDepth currentDepth visited
     = Some (Throw message, visited)
   <-> currentDepth <= maxDepth ∧ getText F type = Throw message)
  ∧ ∀ visited',
      resolveTypeRecursively F fuel type maxDepth currentDepth visited
        = Some (Throw message, visited') ->
      visited' = visited.
Proof.
  intros Hfuel. split; [split|].
  - intros Hrun. by apply resolve_throw_inv in Hrun as (Hdepth & Htext & _).
  - intros [Hdepth Htext]. destruct fuel as [|fuel'].
    + unfold fuel_for in Hfuel. lia.
    + by apply resolve_getText_throws.
  - intros visited' Hrun. by apply resolve_throw_inv in Hrun as (_ & _ & ->).
Qed.

Lemma resolve_throws_iff_witness :
  (resolveTypeRecursively cardTypes 3 7%nat 2 0 {["string"]}
     = Some (Throw "unknown type", {["string"]})
   <-> 0 <= 2 ∧ getText cardTypes 7%nat = Throw "unknown type")
  ∧ ∀ visited',
      resolveTypeRecursively cardTypes 3 7%nat 2 0 {["string"]}
        = Some (Throw "unknown type", visited') ->
      visited' = {["string"]}.
Proof.
  apply (resolve_throws_iff cardTypes 3 7%nat 2 0 {["string"]} "unknown type").
  vm_compute. lia.
Defined.

(** ** [endsWith] *)

Lemma append_length (a b : string) :
  String.length (a +:+ b) = (String.length a + String.length b)%nat.
Proof. induction a as [|c a IH]; simpl; [reflexivity | by rewrite IH]. Qed.

Lemma substring_all (s : string) : substring 0 (String.length s) s = s.
Proof. induction s as [|c s IH]; simpl; [reflexivity | by rewrite IH]. Qed.

Lemma substring_after (a b : string) :
  substring (String.length a) (String.length b) (a +:+ b) = b.
Proof. induction a as [|c a IH]; simpl; [apply substring_all | exact IH]. Qed.

Lemma substring_split (s : string) :
  ∀ k, (k <= String.length s)%nat ->
       s = substring 0 k s +:+ substring k (String.length s - k) s.
Proof.
  induction s as [|c s IH]; intros [|k] Hk; simpl in *; try lia.
  - reflexivity.
  - by rewrite substring_all.
  - change (String c s
            = String c (substring 0 k s +:+ substring k (String.length s - k) s)).
    f_equal. apply IH. lia.
Qed.

(** [endsWith] is the suffix test. *)
Lemma endsWith_spec (s suffix : string) :
  endsWith s suffix = true <-> ∃ before, s = before +:+ suffix.
Proof.
  unfold endsWith. split.
  - destruct (String.length suffix <=? String.length s)%nat eqn:Hle; [|discriminate].
    apply Nat.leb_le in Hle. intros Heq. apply String.eqb_eq in Heq.
    exists (substring 0 (String.length s - String.length suffix) s).
    pose proof (substring_split s (String.length s - String.length suffix)) as Hsplit.
    replace (String.length s - (String.length s - String.length suffix))%nat
      with (String.length suffix) in Hsplit by lia.
    rewrite Heq in Hsplit. apply Hsplit. lia.
  - intros [before ->]. rewrite append_length.
    rewrite (proj2 (Nat.leb_le _ _)) by lia.
    replace (String.length before + String.length suffix - String.length suffix)%nat
      with (String.length before) by lia.
    rewrite substring_after. apply String.eqb_refl.
Qed.

(** * Properties of utils.js *)

(** ** [trim], from left to right *)

Lemma trimStart_snoc (s : CodeUnits) c :
  trimStart (s ++ [c])
  = match trimStart s with
    | [] => if isWhiteSpace c then [] else [c]
    | t => (t ++ [c])%list
    end.
Proof.
  induction s as [|x s IH]; simpl.
  - by destruct (isWhiteSpace c).
  - destruct (isWhiteSpace x); [exact IH | reflexivity].
Qed.

Lemma trimEnd_cons c (s : CodeUnits) :
  trimEnd (c :: s)
  = match trimEnd s with
    | [] => if isWhiteSpace c then [] else [c]
    | t => c :: t
    end.
Proof.
  unfold trimEnd. simpl rev. rewrite trimStart_snoc.
  destruct (trimStart (rev s)) as [|x t] eqn:E.
  - simpl. by destruct (isWhiteSpace c).
  - rewrite rev_app_distr. simpl.
    destruct (rev t ++ [x])%list eqn:E'; [|reflexivity].
    by apply app_eq_nil in E' as [_ ?].
Qed.

Lemma trimEnd_nil : trimEnd [] = [].
Proof. reflexivity. Qed.

Lemma trimStart_not_space (s : CodeUnits) : startsWithSpace (trimStart s) = false.
Proof.
  induction s as [|c s IH]; simpl; [reflexivity|].
  destruct (isWhiteSpace c) eqn:E; [exact IH | simpl; exact E].
Qed.

Lemma trimStart_id (s : CodeUnits) : startsWithSpace s = false -> trimStart s = s.
Proof. destruct s as [|c s]; simpl; [reflexivity | by intros ->]. Qed.

Lemma looseSpaced_tail c (s : CodeUnits) : looseSpaced (c :: s) = true -> looseSpaced s = true.
Proof. simpl. intros H. by apply andb_prop in H as [_ ?]. Qed.

Lemma trimStart_looseSpaced (s : CodeUnits) :
  looseSpaced s = true -> looseSpaced (trimStart s) = true.
Proof.
  induction s as [|c s IH]; intros H; [reflexivity|].
  simpl trimStart. destruct (isWhiteSpace c); [|exact H].
  apply IH. by apply looseSpaced_tail in H.
Qed.

(** ** [collapseWhitespace] *)

Lemma collapseFrom_looseSpaced (s : CodeUnits) :
  ∀ inRun,
    looseSpaced (collapseFrom inRun s) = true
    ∧ (inRun = true -> startsWithSpace (collapseFrom inRun s) = false).
Proof.
  induction s as [|c s IH]; intros inRun; simpl; [auto|].
  destruct (isWhiteSpace c) eqn:Hc.
  - destruct (IH true) as [Hloose Hstart]. destruct inRun.
    + auto.
    + split; [|discriminate]. simpl. rewrite Hloose, andb_true_r.
      specialize (Hstart eq_refl).
      destruct (collapseFrom true s) as [|d t]; [reflexivity|].
      simpl in Hstart. by rewrite Hstart.
  - destruct (IH false) as [Hloose _]. split.
    + simpl. by rewrite Hc, Hloose.
    + intros _. simpl. exact Hc.
Qed.

Lemma collapseFrom_id (s : CodeUnits) :
  ∀ inRun,
    looseSpaced s = true ->
    (inRun = true -> startsWithSpace s = false) ->
    collapseFrom inRun s = s.
Proof.
  induction s as [|c s IH]; intros inRun Hloose Hstart; simpl; [reflexivity|].
  simpl in Hloose. apply andb_prop in Hloose as [Hc Hrest].
  destruct (isWhiteSpace c) eqn:Hws.
  - apply andb_prop in Hc as [Hspace Hnext]. apply N.eqb_eq in Hspace. subst c.
    destruct inRun.
    + specialize (Hstart eq_refl). simpl in Hstart. congruence.
    + f_equal. apply IH; [exact Hrest|]. intros _.
      destruct s as [|d t]; [reflexivity|]. simpl.
      by apply negb_true_iff in Hnext.
  - f_equal. apply IH; [exact Hrest | discriminate].
Qed.

Lemma inkOf_collapseFrom (s : CodeUnits) :
  ∀ inRun, inkOf (collapseFrom inRun s) = inkOf s.
Proof.
  unfold inkOf. induction s as [|c s IH]; intros inRun; simpl; [reflexivity|].
  destruct (isWhiteSpace c) eqn:Hc; simpl.
  - destruct inRun; simpl; apply IH.
  - rewrite Hc. simpl. f_equal. apply IH.
Qed.

Lemma inkOf_trimStart (s : CodeUnits) : inkOf (trimStart s) = inkOf s.
Proof.
  unfold inkOf. induction s as [|c s IH]; simpl; [reflexivity|].
  destruct (isWhiteSpace c) eqn:Hc; simpl; [exact IH|].
  by rewrite Hc.
Qed.

Lemma inkOf_trimEnd (s : CodeUnits) : inkOf (trimEnd s) = inkOf s.
Proof.
  induction s as [|c s IH]; [reflexivity|].
  rewrite trimEnd_cons. unfold inkOf in *. simpl.
  destruct (trimEnd s) as [|x t] eqn:E.
  - simpl in IH. rewrite <- IH.
    destruct (isWhiteSpace c) eqn:Hc; simpl; [reflexivity | by rewrite Hc].
  - simpl. simpl in IH. by rewrite IH.
Qed.

(** ** The normal form *)

Lemma trimEnd_singleSpaced (s : CodeUnits) :
  looseSpaced s = true ->
  singleSpaced (trimEnd s) = true
  ∧ (trimEnd s = [] ∨ ∃ c t t', s = c :: t ∧ trimEnd s = c :: t').
Proof.
  induction s as [|c s IH]; intros Hloose.
  - split; [reflexivity | by left].
  - rewrite trimEnd_cons. simpl in Hloose. apply andb_prop in Hloose as [Hc Hrest].
    destruct (IH Hrest) as [Hsingle Hhead].
    destruct (trimEnd s) as [|x t'] eqn:E.
    + destruct (isWhiteSpace c) eqn:Hws.
      * split; [reflexivity | by left].
      * split; [simpl; by rewrite Hws | right; eauto].
    + split; [|right; eauto].
      simpl. simpl in Hsingle. rewrite Hsingle, andb_true_r.
      destruct (isWhiteSpace c) eqn:Hws; [|reflexivity].
      apply andb_prop in Hc as [Hspace Hnext]. rewrite Hspace. simpl.
      destruct Hhead as [?|(d & t & t'' & -> & [= <- <-])]; [discriminate|].
      exact Hnext.
Qed.

Lemma trimEnd_id (s : CodeUnits) : singleSpaced s = true -> trimEnd s = s.
Proof.
  induction s as [|c s IH]; intros Hsingle; [reflexivity|].
  rewrite trimEnd_cons. simpl in Hsingle. apply andb_prop in Hsingle as [Hc Hrest].
  rewrite (IH Hrest). destruct s as [|d t]; [|reflexivity].
  destruct (isWhiteSpace c); [|reflexivity].
  apply andb_prop in Hc as [_ Hfalse]. discriminate.
Qed.

Lemma singleSpaced_looseSpaced (s : CodeUnits) :
  singleSpaced s = true -> looseSpaced s = true.
Proof.
  induction s as [|c s IH]; simpl; [reflexivity|].
  intros H. apply andb_prop in H as [Hc Hrest]. rewrite (IH Hrest), andb_true_r.
  destruct (isWhiteSpace c); [|reflexivity].
  apply andb_prop in Hc as [-> Hnext]. simpl. by destruct s.
Qed.

Lemma trimEnd_not_space (s : CodeUnits) :
  startsWithSpace s = false -> startsWithSpace (trimEnd s) = false.
Proof.
  destruct s as [|c s]; [reflexivity|]. rewrite trimEnd_cons. simpl. intros Hc.
  destruct (trimEnd s); simpl; by rewrite Hc.
Qed.

Lemma compress_normal (content : CodeUnits) :
  isNormalForm (compressContent content) = true.
Proof.
  unfold isNormalForm, compressContent, trim, collapseWhitespace.
  destruct (collapseFrom_looseSpaced content false) as [Hloose _].
  apply andb_true_intro. split.
  - apply negb_true_iff, trimEnd_not_space, trimStart_not_space.
  - by apply trimEnd_singleSpaced, trimStart_looseSpaced.
Qed.

(** X11. The result of [compressContent] is in normal form: its only white
    space is the plain space, no two spaces are adjacent, and it neither
    starts nor ends with one.  Text in normal form is left as it is, so
    [compressContent] is idempotent. *)
Theorem compressContent_normal_form (content : CodeUnits) :
  isNormalForm (compressContent content) = true
  ∧ (isNormalForm content = true -> compressContent content = content)
  ∧ compressContent (compressContent content) = compressContent content.
Proof.
  assert (Hfix : ∀ s, isNormalForm s = true -> compressContent s = s).
  { intros s Hnf. unfold isNormalForm in Hnf. apply andb_prop in Hnf as [Hstart Hsingle].
    apply negb_true_iff in Hstart.
    unfold compressContent, trim, collapseWhitespace.
    rewrite collapseFrom_id; [|by apply singleSpaced_looseSpaced|discriminate].
    rewrite trimStart_id by assumption. by apply trimEnd_id. }
  split; [apply compress_normal|]. split; [apply Hfix|].
  apply Hfix, compress_normal.
Qed.

Lemma compressContent_normal_form_witness :
  isNormalForm (compressContent (units "a b")) = true
  ∧ (isNormalForm (units "a b") = true -> compressContent (units "a b") = units "a b")
  ∧ compressContent (compressContent (units "a b")) = compressContent (units "a b").
Proof. apply (compressContent_normal_form (units "a b")). Defined.

(** X12. [compressContent] changes white space only: the code units that
    are not white space are those of the input, in the same order.  So the
    result is empty exactly when the input is all white space. *)
Theorem compressContent_keeps_ink (content : CodeUnits) :
  inkOf (compressContent content) = inkOf content
  ∧ (compressContent content = [] <-> forallb isWhiteSpace content = true).
Proof.
  assert (Hink : inkOf (compressContent content) = inkOf content).
  { unfold compressContent, trim, collapseWhitespace.
    by rewrite inkOf_trimEnd, inkOf_trimStart, inkOf_collapseFrom. }
  assert (Hall : ∀ s : CodeUnits, inkOf s = [] <-> forallb isWhiteSpace s = true).
  { unfold inkOf. induction s as [|c s IH]; simpl; [done|].
    destruct (isWhiteSpace c); simpl; [exact IH | split; discriminate]. }
  split; [exact Hink|]. rewrite <- Hall, <- Hink. split.
  - by intros ->.
  - intros Hempty. pose proof (compress_normal content) as Hnf.
    unfold isNormalForm in Hnf. apply andb_prop in Hnf as [_ Hsingle].
    destruct (compressContent content) as [|c t]; [reflexivity|].
    exfalso. clear Hink. revert c Hempty Hsingle.
    induction t as [|d t IH]; intros c Hempty Hsingle; unfold inkOf in *; simpl in *.
    + destruct (isWhiteSpace c); simpl in *; [|discriminate].
      rewrite andb_false_r in Hsingle. discriminate.
    + destruct (isWhiteSpace c) eqn:Hc; simpl in *; [|discriminate].
      apply andb_prop in Hsingle as [Hhead Hrest].
      apply andb_prop in Hhead as [_ Hd]. apply negb_true_iff in Hd.
      rewrite Hd in Hempty. discriminate.
Qed.

Example compressContent_sample :
  compressContent (units ("  export  const a" +:+ newline +:+ "  = 1;  "))
  = units "export const a = 1;".
Proof. reflexivity. Qed.

(** ** The version with the comment passes *)

(** Text free of LF and CR: the lookahead of the line-comment pass fails
    everywhere in it. *)
Lemma lineEndsWithNewline_plain (s : CodeUnits) :
  plainSpaces s = true -> lineEndsWithNewline s = false.
Proof.
  unfold plainSpaces. induction s as [|c s IH]; simpl; [reflexivity|].
  intros H. apply andb_prop in H as [Hc Hrest].
  destruct (isLineTerminator c) eqn:Hlt; [|by apply IH].
  assert (Hws : isWhiteSpace c = true).
  { unfold isWhiteSpace. rewrite Hlt. apply orb_true_r. }
  rewrite Hws in Hc. simpl in Hc. apply N.eqb_eq in Hc. subst c. discriminate.
Qed.

Lemma removeLineComments_plain (s : CodeUnits) :
  plainSpaces s = true -> removeLineCommentsFrom false s = s.
Proof.
  induction s as [|c s IH]; intros Hplain; simpl; [reflexivity|].
  assert (Hrest : plainSpaces s = true).
  { unfold plainSpaces in *. simpl in Hplain. by apply andb_prop in Hplain as [_ ?]. }
  destruct s as [|d t]; [reflexivity|].
  assert (Ht : plainSpaces t = true).
  { unfold plainSpaces in *. simpl in Hrest. by apply andb_prop in Hrest as [_ ?]. }
  rewrite (lineEndsWithNewline_plain t Ht), andb_false_r.
  f_equal. by apply IH.
Qed.

Lemma looseSpaced_plainSpaces (s : CodeUnits) :
  looseSpaced s = true -> plainSpaces s = true.
Proof.
  unfold plainSpaces. induction s as [|c s IH]; simpl; [reflexivity|].
  intros H. apply andb_prop in H as [Hc Hrest]. rewrite (IH Hrest), andb_true_r.
  destruct (isWhiteSpace c); [|reflexivity].
  by apply andb_prop in Hc as [-> _].
Qed.

(** X13. In the version of [compressContent] that has them, the pass meant
    to remove [//] comments never removes anything: it needs a line break
    after the comment, and the white-space pass before it has already
    turned every line break into a space.  The function is the white-space
    pass, the block-comment pass and [trim]. *)
Theorem line_comment_pass_is_dead (content : CodeUnits) :
  removeLineComments (collapseWhitespace content) = collapseWhitespace content
  ∧ WithComments.compressContent content
    = trim (removeBlockComments (collapseWhitespace content)).
Proof.
  assert (Hdead : removeLineComments (collapseWhitespace content)
                  = collapseWhitespace content).
  { unfold removeLineComments, collapseWhitespace.
    apply removeLineComments_plain, looseSpaced_plainSpaces.
    by destruct (collapseFrom_looseSpaced content false). }
  split; [exact Hdead|].
  unfold WithComments.compressContent. cbv zeta. by rewrite Hdead.
Qed.

Example line_comment_survives :
  WithComments.compressContent (units ("a(); // call a" +:+ newline +:+ "b();"))
  = units "a(); // call a b();".
Proof. reflexivity. Qed.

Lemma removeLineComments_works_on_lines :
  removeLineComments (units ("a(); // call a" +:+ newline +:+ "b();"))
  = units ("a(); " +:+ newline +:+ "b();").
Proof. reflexivity. Qed.

Lemma removeBlockCommentsFrom_step inComment c d (rest : CodeUnits) :
  removeBlockCommentsFrom inComment (c :: d :: rest)
  = if inComment then
      if ((c =? STAR) && (d =? SLASH))%N
      then removeBlockCommentsFrom false rest
      else removeBlockCommentsFrom true (d :: rest)
    else
      if ((c =? SLASH) && (d =? STAR))%N && hasBlockEnd rest
      then removeBlockCommentsFrom true rest
      else c :: removeBlockCommentsFrom false (d :: rest).
Proof. reflexivity. Qed.

(** What the block-comment pass keeps is a subsequence of its input. *)
Lemma removeBlockCommentsFrom_sublist (s : CodeUnits) :
  ∀ inComment, removeBlockCommentsFrom inComment s `sublist_of` s.
Proof.
  assert (Hgen : ∀ n (s : CodeUnits), (List.length s <= n)%nat ->
            ∀ inComment, removeBlockCommentsFrom inComment s `sublist_of` s).
  { induction n as [|n IH]; intros t Hlen inComment.
    - destruct t; [constructor | simpl in Hlen; lia].
    - destruct t as [|c [|d rest']].
      + constructor.
      + simpl. destruct inComment; [apply sublist_nil_l | reflexivity].
      + simpl in Hlen. rewrite removeBlockCommentsFrom_step. destruct inComment.
        * destruct ((c =? STAR)%N && (d =? SLASH)%N).
          -- do 2 apply sublist_cons. apply IH. lia.
          -- apply sublist_cons. apply IH. simpl. lia.
        * destruct ((c =? SLASH)%N && (d =? STAR)%N && hasBlockEnd rest').
          -- do 2 apply sublist_cons. apply IH. lia.
          -- apply sublist_skip. apply IH. simpl. lia. }
  intros inComment. by apply (Hgen (List.length s)).
Qed.

Lemma removeBlockComments_without_start (s : CodeUnits) :
  hasBlockStart s = false -> removeBlockCommentsFrom false s = s.
Proof.
  induction s as [|c s IH]; intros Hnone; [reflexivity|].
  destruct s as [|d t]; [reflexivity|].
  rewrite removeBlockCommentsFrom_step.
  change (hasBlockStart (c :: d :: t))
    with (if ((c =? SLASH) && (d =? STAR))%N then true else hasBlockStart (d :: t))
    in Hnone.
  destruct ((c =? SLASH)%N && (d =? STAR)%N); [discriminate|].
  simpl andb. cbv iota. f_equal. by apply IH.
Qed.

Lemma collapseFrom_head (s : CodeUnits) c t :
  collapseFrom false s = c :: t ->
  isWhiteSpace c = false ->
  ∃ t', s = c :: t'.
Proof.
  destruct s as [|x s]; simpl; [discriminate|].
  destruct (isWhiteSpace x) eqn:Hx.
  - intros [= <- _] Hspace. discriminate.
  - intros [= <- _] _. eauto.
Qed.

Lemma collapseFrom_without_start (s : CodeUnits) :
  hasBlockStart s = false ->
  ∀ inRun, hasBlockStart (collapseFrom inRun s) = false.
Proof.
  induction s as [|c s IH]; intros Hnone inRun; simpl; [reflexivity|].
  assert (Hrest : hasBlockStart s = false).
  { simpl in Hnone. destruct s as [|d t]; [reflexivity|].
    by destruct ((c =? SLASH)%N && (d =? STAR)%N). }
  destruct (isWhiteSpace c) eqn:Hc.
  - destruct inRun; [by apply IH|].
    simpl. destruct (collapseFrom true s) eqn:E; [reflexivity|].
    rewrite <- E. by apply IH.
  - simpl. destruct (collapseFrom false s) as [|d t] eqn:E; [reflexivity|].
    destruct ((c =? SLASH)%N && (d =? STAR)%N) eqn:Hpair.
    + exfalso. apply andb_prop in Hpair as [Hslash Hstar].
      apply N.eqb_eq in Hstar. subst d.
      destruct (collapseFrom_head s STAR t E eq_refl) as [t' ->].
      simpl in Hnone. rewrite Hslash in Hnone. discriminate.
    + rewrite <- E. by apply IH.
Qed.

Lemma collapseFrom_length (s : CodeUnits) :
  ∀ inRun, (List.length (collapseFrom inRun s) <= List.length s)%nat.
Proof.
  induction s as [|c s IH]; intros inRun; simpl; [lia|].
  pose proof (IH true). pose proof (IH false).
  destruct (isWhiteSpace c); [destruct inRun|]; simpl; lia.
Qed.

(** X14. The result of the version with the comment passes has the plain
    space as its only white space, neither starts nor ends with a space,
    and is never longer than the input.  Unlike the other version it can
    hold two spaces in a row, where a block comment stood between them. *)
Theorem compressContent_with_comments_output (content : CodeUnits) :
  let out := WithComments.compressContent content in
  plainSpaces out = true
  ∧ startsWithSpace out = false
  ∧ startsWithSpace (rev out) = false
  ∧ (List.length out <= List.length content)%nat.
Proof.
  simpl. unfold WithComments.compressContent. cbv zeta.
  set (collapsed := collapseWhitespace content).
  assert (Hdead : removeLineComments collapsed = collapsed).
  { unfold removeLineComments, collapsed, collapseWhitespace.
    apply removeLineComments_plain, looseSpaced_plainSpaces.
    by destruct (collapseFrom_looseSpaced content false). }
  rewrite Hdead. set (stripped := removeBlockComments collapsed).
  assert (Hplain : plainSpaces stripped = true).
  { assert (Hc : plainSpaces collapsed = true).
    { apply looseSpaced_plainSpaces.
      by destruct (collapseFrom_looseSpaced content false). }
    unfold plainSpaces in *. rewrite forallb_forall in *.
    intros c Hin. apply Hc. apply list_elem_of_In.
    eapply sublist_subseteq; [apply removeBlockCommentsFrom_sublist|].
    apply list_elem_of_In. exact Hin. }
  assert (Hlen : (List.length stripped <= List.length content)%nat).
  { transitivity (List.length collapsed).
    - apply sublist_length, removeBlockCommentsFrom_sublist.
    - apply collapseFrom_length. }
  assert (Htrim : ∀ s : CodeUnits, plainSpaces s = true ->
            plainSpaces (trim s) = true
            ∧ startsWithSpace (trim s) = false
            ∧ startsWithSpace (rev (trim s)) = false
            ∧ (List.length (trim s) <= List.length s)%nat).
  { intros s Hs.
    assert (Hstart : ∀ t : CodeUnits, plainSpaces t = true ->
              plainSpaces (trimStart t) = true
              ∧ (List.length (trimStart t) <= List.length t)%nat).
    { unfold plainSpaces. induction t as [|c t IH]; intros Ht; simpl; [auto|].
      simpl in Ht. apply andb_prop in Ht as [Hc Hrest].
      destruct (isWhiteSpace c) eqn:Hws.
      - destruct (IH Hrest) as [Hp Hl]. split; [exact Hp | by apply le_S].
      - split; [|reflexivity]. simpl. by rewrite Hws, Hrest. }
    destruct (Hstart s Hs) as [Hp1 Hl1].
    assert (Hrev : ∀ t : CodeUnits, plainSpaces t = true -> plainSpaces (rev t) = true).
    { unfold plainSpaces. intros t Ht. rewrite forallb_forall in *.
      intros c Hin. apply Ht. by apply in_rev. }
    unfold trim, trimEnd.
    destruct (Hstart (rev (trimStart s)) (Hrev _ Hp1)) as [Hp2 Hl2].
    rewrite length_rev in Hl2.
    split; [by apply Hrev|]. split; [|split].
    - fold (trimEnd (trimStart s)). apply trimEnd_not_space, trimStart_not_space.
    - rewrite rev_involutive. apply trimStart_not_space.
    - rewrite length_rev. lia. }
  destruct (Htrim stripped Hplain) as (H1 & H2 & H3 & H4).
  repeat split; try assumption. lia.
Qed.

Example block_comment_leaves_two_spaces :
  WithComments.compressContent (units "a /* note */ b") = units "a  b"
  ∧ isNormalForm (WithComments.compressContent (units "a /* note */ b")) = false.
Proof. split; reflexivity. Qed.

(** X15. On text in which [/*] does not occur, the version with the comment
    passes and the version without them give the same result. *)
Theorem compressContent_versions_agree (content : CodeUnits) :
  hasBlockStart content = false ->
  WithComments.compressContent content = compressContent content.
Proof.
  intros Hnone. unfold WithComments.compressContent, compressContent. cbv zeta.
  assert (Hdead : removeLineComments (collapseWhitespace content)
                  = collapseWhitespace content).
  { unfold removeLineComments, collapseWhitespace.
    apply removeLineComments_plain, looseSpaced_plainSpaces.
    by destruct (collapseFrom_looseSpaced content false). }
  rewrite Hdead. unfold removeBlockComments.
  rewrite removeBlockComments_without_start; [reflexivity|].
  by apply collapseFrom_without_start.
Qed.

Lemma compressContent_versions_agree_witness :
  WithComments.compressContent (units "a(); // call a")
  = compressContent (units "a(); // call a").
Proof.
  apply (compressContent_versions_agree (units "a(); // call a")). reflexivity.
Defined.

(** ** [parseConfig] *)

Section ParseConfigFacts.
Variable Config : Type.
Variable dirname : string -> string.
Variable basename : string -> string.
Variable join : string -> string -> string.
Variable readFile : string -> Completion string.
Variable JSON_parse : string -> Completion Config.

Local Abbreviation loop := (parseConfigFrom Config dirname basename join readFile JSON_parse).
Local Abbreviation fileOf := (configAt Config basename join readFile JSON_parse).
Local Abbreviation up := (ancestor dirname).

Lemma ancestor_S n dir : up (S n) dir = up n (dirname dir).
Proof. unfold ancestor. by rewrite Nat.iter_succ_r. Qed.

(** One turn of the loop. *)
Lemma parseConfigFrom_S fuel configPath currentDir :
  loop (S fuel) configPath currentDir
  = match fileOf configPath currentDir with
    | Normal config => Some (Normal config)
    | Throw _ =>
        if String.eqb (dirname currentDir) currentDir
        then Some (Throw (notFoundMessage configPath))
        else loop fuel configPath (dirname currentDir)
    end.
Proof. reflexivity. Qed.

Lemma parseConfigFrom_throw fuel configPath :
  ∀ currentDir message,
    loop fuel configPath currentDir = Some (Throw message) ->
    message = notFoundMessage configPath.
Proof.
  induction fuel as [|fuel IH]; intros currentDir message; [discriminate|].
  rewrite parseConfigFrom_S.
  destruct (fileOf configPath currentDir); [discriminate|].
  destruct (String.eqb (dirname currentDir) currentDir); [by intros [= <-] | apply IH].
Qed.

(** X16. The only failure [parseConfig] reports is that the configuration
    file was not found, and it names the path it was asked for, not the
    directory last tried: why a file could not be read, or that a file was
    found but is not valid JSON, is never reported. *)
Theorem parseConfig_only_reports_not_found fuel configPath message :
  parseConfig Config dirname basename join readFile JSON_parse fuel configPath
    = Some (Throw message) ->
  message = notFoundMessage configPath.
Proof. unfold parseConfig. apply parseConfigFrom_throw. Qed.

Lemma parseConfigFrom_climb n :
  ∀ fuel configPath start,
    (∀ i, (i < n)%nat ->
       (∃ message, fileOf configPath (up i start) = Throw message)
       ∧ dirname (up i start) <> up i start) ->
    loop (n + fuel) configPath start = loop fuel configPath (up n start).
Proof.
  induction n as [|n IH]; intros fuel configPath start Hfail; [reflexivity|].
  destruct (Hfail 0%nat) as [[message Hread] Hparent]; [lia|].
  change (up 0 start) with start in Hread, Hparent.
  change (S n + fuel)%nat with (S (n + fuel)).
  rewrite parseConfigFrom_S, Hread.
  rewrite (proj2 (String.eqb_neq _ _) Hparent).
  rewrite ancestor_S. apply IH. intros i Hi.
  specialize (Hfail (S i)). rewrite ancestor_S in Hfail. apply Hfail. lia.
Qed.

(** X17. [parseConfig] returns the configuration of the nearest directory,
    going up from the one of [configPath], whose file can be read and
    parsed.  Nearer directories whose file is missing, unreadable or not
    valid JSON are passed over. *)
Theorem parseConfig_nearest_ancestor n fuel configPath config :
  let start := dirname configPath in
  (∀ i, (i < n)%nat ->
     (∃ message, fileOf configPath (up i start) = Throw message)
     ∧ dirname (up i start) <> up i start) ->
  fileOf configPath (up n start) = Normal config ->
  parseConfig Config dirname basename join readFile JSON_parse (n + S fuel) configPath
  = Some (Normal config).
Proof.
  intros start Hfail Hfound. unfold parseConfig. fold start.
  rewrite parseConfigFrom_climb by assumption.
  by rewrite parseConfigFrom_S, Hfound.
Qed.

(** X18. If no directory from the one of [configPath] up to the root (the
    first directory that is its own parent) has a file that can be read and
    parsed, [parseConfig] stops at the root and fails with the not-found
    message. *)
Theorem parseConfig_stops_at_root n fuel configPath :
  let start := dirname configPath in
  (∀ i, (i <= n)%nat -> ∃ message, fileOf configPath (up i start) = Throw message) ->
  (∀ i, (i < n)%nat -> dirname (up i start) <> up i start) ->
  dirname (up n start) = up n start ->
  parseConfig Config dirname basename join readFile JSON_parse (n + S fuel) configPath
  = Some (Throw (notFoundMessage configPath)).
Proof.
  intros start Hfail Hclimb Hroot. unfold parseConfig. fold start.
  rewrite parseConfigFrom_climb.
  2:{ intros i Hi. split; [apply Hfail; lia | by apply Hclimb]. }
  destruct (Hfail n) as [message Hread]; [lia|].
  rewrite parseConfigFrom_S, Hread, Hroot.
  by rewrite String.eqb_refl.
Qed.
End ParseConfigFacts.

Lemma parseConfig_only_reports_not_found_witness :
  "Configuration file /srv/site/.genprompt.json not found."
  = notFoundMessage "/srv/site/.genprompt.json".
Proof.
  apply (parseConfig_only_reports_not_found string toyDirname toyBasename toyJoin
           toyReadFile toyParse 5 "/srv/site/.genprompt.json").
  reflexivity.
Defined.

Lemma parseConfig_nearest_ancestor_witness :
  parseConfig string toyDirname toyBasename toyJoin toyReadFile toyParse (2 + 1)
    "/home/me/app/.genprompt.json"
  = Some (Normal "the configuration of /home").
Proof.
  apply (parseConfig_nearest_ancestor string toyDirname toyBasename toyJoin
           toyReadFile toyParse 2 0 "/home/me/app/.genprompt.json").
  - intros i Hi. destruct i as [|[|i]]; [| |lia].
    + split; [eexists; reflexivity | discriminate].
    + split; [eexists; reflexivity | discriminate].
  - reflexivity.
Defined.

Lemma parseConfig_stops_at_root_witness :
  parseConfig string toyDirname toyBasename toyJoin toyReadFile toyParse (1 + 1)
    "/srv/site/.genprompt.json"
  = Some (Throw (notFoundMessage "/srv/site/.genprompt.json")).
Proof.
  apply (parseConfig_stops_at_root string toyDirname toyBasename toyJoin
           toyReadFile toyParse 1 0 "/srv/site/.genprompt.json").
  - intros i Hi. destruct i as [|[|i]]; [| |lia]; eexists; reflexivity.
  - intros i Hi. destruct i as [|i]; [discriminate | lia].
  - reflexivity.
Defined.

(** ** [processFiles] *)

Lemma append_assoc (a b c : string) : (a +:+ b) +:+ c = a +:+ (b +:+ c).
Proof.
  induction a as [|x a IH]; [reflexivity|].
  change (String x ((a +:+ b) +:+ c) = String x (a +:+ (b +:+ c))). by rewrite IH.
Qed.

Lemma append_empty_r (a : string) : a +:+ EmptyString = a.
Proof.
  induction a as [|x a IH]; [reflexivity|].
  change (String x (a +:+ EmptyString) = String x a). by rewrite IH.
Qed.

Section ProcessFilesFacts.
Variable fg : list string -> Completion (list string).
Variable readFile : string -> Completion string.

Lemma processFilesLoop_blocks files :
  ∀ contents content,
    Forall2 (fun file fileContent => readFile file = Normal fileContent) files contents ->
    processFilesLoop readFile files content
    = Normal (content +:+ joinAll (zip_with fileBlock files contents)).
Proof.
  induction files as [|file rest IH]; intros contents content Hread.
  - inversion Hread; subst. simpl. unfold joinAll. simpl. by rewrite append_empty_r.
  - inversion Hread as [|? fileContent ? restContents Hfile Hrest]; subst.
    simpl processFilesLoop. rewrite Hfile. simpl cbind.
    rewrite (IH restContents) by assumption. f_equal.
    rewrite !append_assoc. f_equal.
    simpl zip_with. unfold joinAll, fileBlock. simpl fold_right.
    by rewrite !append_assoc.
Qed.

(** X19. When the glob succeeds and every file it returns can be read, the
    result of [processFiles] is, file by file in the order of the glob, a
    header line naming the file, the content of the file, and the footer;
    for no file at all it is the empty string. *)
Theorem processFiles_blocks filePatterns files contents :
  fg filePatterns = Normal files ->
  Forall2 (fun file fileContent => readFile file = Normal fileContent) files contents ->
  processFiles fg readFile filePatterns
  = Normal (joinAll (zip_with fileBlock files contents)).
Proof.
  intros Hglob Hread. unfold processFiles. rewrite Hglob. simpl cbind.
  by rewrite (processFilesLoop_blocks files contents).
Qed.

Lemma processFilesLoop_throw before :
  ∀ file after message content,
    Forall (fun f => ∃ fileContent, readFile f = Normal fileContent) before ->
    readFile file = Throw message ->
    processFilesLoop readFile (before ++ file :: after) content = Throw message.
Proof.
  induction before as [|f rest IH]; intros file after message content Hbefore Hfile.
  - simpl. by rewrite Hfile.
  - inversion Hbefore as [|? ? [fileContent Hf] Hrest]; subst.
    simpl. rewrite Hf. simpl. by apply IH.
Qed.

(** X20. [processFiles] is all or nothing: when a file returned by the glob
    cannot be read, the call fails with the error of the first such file,
    and what was gathered from the files before it is lost. *)
Theorem processFiles_fails_on_first_unreadable filePatterns before file after message :
  fg filePatterns = Normal (before ++ file :: after)%list ->
  Forall (fun f => ∃ fileContent, readFile f = Normal fileContent) before ->
  readFile file = Throw message ->
  processFiles fg readFile filePatterns = Throw message.
Proof.
  intros Hglob Hbefore Hfile. unfold processFiles. rewrite Hglob. simpl cbind.
  by apply processFilesLoop_throw.
Qed.
End ProcessFilesFacts.

Lemma processFiles_blocks_witness :
  processFiles toyGlob toyReadFile ["a.ts"; "b.ts"]
  = Normal (String.concat EmptyString
              (zip_with fileBlock ["a.ts"; "b.ts"] ["let a;"; "let b;"])).
Proof.
  apply (processFiles_blocks toyGlob toyReadFile ["a.ts"; "b.ts"] ["a.ts"; "b.ts"]
           ["let a;"; "let b;"]).
  - reflexivity.
  - repeat constructor.
Defined.

Lemma processFiles_fails_on_first_unreadable_witness :
  processFiles toyGlob toyReadFile ["a.ts"; "missing.ts"; "b.ts"]
  = Throw "ENOENT: no such file or directory".
Proof.
  apply (processFiles_fails_on_first_unreadable toyGlob toyReadFile
           ["a.ts"; "missing.ts"; "b.ts"] ["a.ts"] "missing.ts" ["b.ts"]).
  - reflexivity.
  - repeat constructor. eexists. reflexivity.
  - reflexivity.
Defined.

Example processFiles_one_file :
  processFiles toyGlob toyReadFile ["a.ts"]
  = Normal ("--------  a.ts --------" +:+ newline +:+ "let a;" +:+ newline
            +:+ "-------- EOF --------" +:+ newline +:+ newline).
Proof. reflexivity. Qed.

(** ** [summarizeComponentProps] *)

Section SummarizeFacts.
Variable openFile : string -> Completion (Facade * list (string * list Declaration)).
Variable stringify : JsObj -> string.

Local Abbreviation printFile := (summarizeFile openFile stringify).
Local Abbreviation printAll := (summarizeComponentProps openFile stringify).

Lemma summarize_closed_form files maxDepth :
  ∀ console,
    printAll files maxDepth console
    = (console ++ concat (map (fun file => printFile file maxDepth) files))%list.
Proof.
  unfold summarizeComponentProps.
  induction files as [|file rest IH]; intros console; simpl.
  - by rewrite app_nil_r.
  - rewrite IH. by rewrite <- app_assoc.
Qed.

(** X21. [summarizeComponentProps] treats files independently: what it
    prints for a list of files is what it prints for each, one after the
    other.  A file that cannot be opened, or whose export map cannot be
    obtained, costs exactly one line on the error stream, naming the file
    and the message, and the files after it are reported as if it were not
    there. *)
Theorem summarize_files_independent before file after message maxDepth console :
  openFile file = Throw message ->
  printAll (before ++ file :: after) maxDepth console
  = printAll after maxDepth
      (printAll before maxDepth console
       ++ [LogError ("Error processing file " +:+ dquote +:+ file +:+ dquote +:+ ": "
                     +:+ message)])
  ∧ ∀ files files',
      printAll (files ++ files') maxDepth console
      = printAll files' maxDepth (printAll files maxDepth console).
Proof.
  intros Hopen.
  assert (Hsplit : ∀ files files' start,
            printAll (files ++ files') maxDepth start
            = printAll files' maxDepth (printAll files maxDepth start)).
  { intros files files' start. unfold summarizeComponentProps. apply fold_left_app. }
  split; [|intros files files'; apply Hsplit].
  rewrite Hsplit. change (file :: after) with ([file] ++ after)%list.
  rewrite Hsplit. f_equal.
  rewrite (summarize_closed_form [file]). simpl concat. rewrite app_nil_r. f_equal.
  unfold summarizeFile, analyzeComponentPropsAt. by rewrite Hopen.
Qed.

End SummarizeFacts.

Lemma summarize_files_independent_witness :
  summarizeComponentProps toyOpenFile toyStringify
    (["types.ts"] ++ "gone.ts" :: ["Card.tsx"]) 2 []
  = summarizeComponentProps toyOpenFile toyStringify ["Card.tsx"] 2
      (summarizeComponentProps toyOpenFile toyStringify ["types.ts"] 2 []
       ++ [LogError ("Error processing file " +:+ dquote +:+ "gone.ts" +:+ dquote +:+ ": "
                     +:+ "File not found")])
  ∧ ∀ files files',
      summarizeComponentProps toyOpenFile toyStringify (files ++ files') 2 []
      = summarizeComponentProps toyOpenFile toyStringify files' 2
          (summarizeComponentProps toyOpenFile toyStringify files 2 []).
Proof.
  apply (summarize_files_independent toyOpenFile toyStringify ["types.ts"] "gone.ts"
           ["Card.tsx"] "File not found" 2 []).
  reflexivity.
Defined.


Example summarize_three_files :
  summarizeComponentProps toyOpenFile toyStringify ["types.ts"; "gone.ts"; "Card.tsx"] 2 []
  = [ Log "--------  types.ts --------";
      Log "No valid props found.";
      Log "Skipped 2 exports in this file.";
      Log ("-------- EOF --------" +:+ newline);
      LogError ("Error processing file " +:+ dquote +:+ "gone.ts" +:+ dquote
                +:+ ": File not found");
      Log "--------  Card.tsx --------";
      Log "{...}";
      Log ("-------- EOF --------" +:+ newline) ].
Proof. reflexivity. Qed.

(** ** More on the resolver *)

Lemma resolve_again_is_circular_witness :
  resolveTypeRecursively twoStrings (S 0) 1%nat 2 1 ({["string"]} ∪ ∅)
  = Some (Normal (JStr CIRCULAR_TEXT), {["string"]} ∪ ∅).
Proof.
  apply (resolve_again_is_circular twoStrings 1 0 0%nat 1%nat "string" 2 1 1
           ∅ (Normal (JStr "string")) ({["string"]} ∪ ∅)).
  - lia.
  - lia.
  - reflexivity.
  - reflexivity.
  - reflexivity.
  - reflexivity.
Defined.
